(** * rfc_to_docx: the RFC markdown parser and the DOCX renderer

    A shallow embedding of [claude-config/skills/rfc-writer/rfc_to_docx.py].

    Conventions of the embedding.
    - A Python [str] is a list of Unicode code points ([N]).  Literals of
      the source are written as UTF-8 string literals and decoded by [u].
    - [str.strip], [\s] and [\d] use the character tables of CPython 3.11
      (Unicode 14.0): 29 white-space code points, 66 blocks of decimal
      digits.
    - [int] is Python's unbounded integer ([N] here, the converted text is
      always a run of digits); CPython's configurable limit on the number
      of digits that [int()] accepts is not part of the model.
    - The quotient that the density check compares with 0.15 is compared
      exactly; [Binary64.density_exceeds] is the comparison in binary64.
    - The cursor [i] of [parse_rfc_content] is the list of the lines not
      yet consumed ([lines[i:]]).
    - The python-docx document is an append-only list of blocks; its
      appends succeed, only the list indexing done by [add_table] itself
      can raise.  The matplotlib rasteriser is a parameter returning
      [None] when it raises. *)

From Stdlib Require Import String Ascii Bool NArith Arith Lia List.
From Stdlib Require Import DecimalString.
From Stdlib Require DecimalPos DecimalN Floats Uint63 ZArith.
Import ListNotations.

(** ** Python strings *)

Module Py.

Abbreviation char := N (only parsing).
Abbreviation str := (list N) (only parsing).

(** UTF-8 decoding of a source literal into code points. *)
Fixpoint utf8_decode (bs : list N) : str :=
  match bs with
  | [] => []
  | b :: r =>
    if (b <? 0x80)%N then b :: utf8_decode r
    else if (b <? 0xE0)%N then
      match r with
      | b1 :: r1 => ((b - 0xC0) * 64 + (b1 - 0x80))%N :: utf8_decode r1
      | _ => []
      end
    else if (b <? 0xF0)%N then
      match r with
      | b1 :: b2 :: r2 =>
        ((b - 0xE0) * 4096 + (b1 - 0x80) * 64 + (b2 - 0x80))%N :: utf8_decode r2
      | _ => []
      end
    else
      match r with
      | b1 :: b2 :: b3 :: r3 =>
        ((b - 0xF0) * 262144 + (b1 - 0x80) * 4096 + (b2 - 0x80) * 64 + (b3 - 0x80))%N
          :: utf8_decode r3
      | _ => []
      end
  end.

(** A literal of the source. *)
Definition u (s : string) : str :=
  utf8_decode (map N_of_ascii (list_ascii_of_string s)).

(** The newline and the space. *)
Definition NL : char := 10%N.
Definition SPACE : char := 32%N.

(** [c in s] for a one-character [c]. *)
Definition char_in (c : char) (s : str) : bool := existsb (N.eqb c) s.

(** [str.isspace] on one character (Py_UNICODE_ISSPACE). *)
Definition isspace (c : char) : bool :=
  ((9 <=? c) && (c <=? 13) || (28 <=? c) && (c <=? 32)
   || (c =? 0x85) || (c =? 0xA0) || (c =? 0x1680)
   || (0x2000 <=? c) && (c <=? 0x200A)
   || (c =? 0x2028) || (c =? 0x2029) || (c =? 0x202F) || (c =? 0x205F)
   || (c =? 0x3000))%N.

(** The code points of the digit zero of every decimal-digit block
    (general category Nd); each is followed by its digits one to nine. *)
Definition decimal_zeros : list N :=
  [0x30; 0x660; 0x6F0; 0x7C0; 0x966; 0x9E6; 0xA66; 0xAE6; 0xB66; 0xBE6;
   0xC66; 0xCE6; 0xD66; 0xDE6; 0xE50; 0xED0; 0xF20; 0x1040; 0x1090;
   0x17E0; 0x1810; 0x1946; 0x19D0; 0x1A80; 0x1A90; 0x1B50; 0x1BB0;
   0x1C40; 0x1C50; 0xA620; 0xA8D0; 0xA900; 0xA9D0; 0xA9F0; 0xAA50;
   0xABF0; 0xFF10; 0x104A0; 0x10D30; 0x11066; 0x110F0; 0x11136; 0x111D0;
   0x112F0; 0x11450; 0x114D0; 0x11650; 0x116C0; 0x11730; 0x118E0;
   0x11950; 0x11C50; 0x11D50; 0x11DA0; 0x16A60; 0x16AC0; 0x16B50;
   0x1D7CE; 0x1D7D8; 0x1D7E2; 0x1D7EC; 0x1D7F6; 0x1E140; 0x1E2F0;
   0x1E950; 0x1FBF0]%N.

(** [c] is one of the ten digits of the block that starts at [z]. *)
Definition in_block (c z : N) : bool := ((z <=? c) && (c <? z + 10))%N.

(** [\d] and [str.isdecimal] on one character. *)
Definition isdecimal (c : char) : bool := existsb (in_block c) decimal_zeros.

(** The value of a decimal digit (Py_UNICODE_TODECIMAL). *)
Definition decimal_value (c : char) : N :=
  match find (in_block c) decimal_zeros with
  | Some z => (c - z)%N
  | None => 0%N
  end.

(** One more digit read. *)
Definition int_step (acc : N) (c : char) : N :=
  (10 * acc + decimal_value c)%N.

(** [int(s)] for a string of decimal digits. *)
Definition int (s : str) : N := fold_left int_step s 0%N.

(** [str(n)] for a non-negative integer. *)
Definition str_of_int (n : N) : str :=
  u (NilEmpty.string_of_uint (N.to_uint n)).

(** [s] without its longest prefix of characters that satisfy [p]. *)
Fixpoint dropwhile (p : char -> bool) (s : str) : str :=
  match s with
  | [] => []
  | c :: r => if p c then dropwhile p r else s
  end.

(** [s.lstrip()], [s.rstrip()] and [s.strip()]. *)
Definition lstrip (s : str) : str := dropwhile isspace s.
Definition rstrip (s : str) : str := rev (dropwhile isspace (rev s)).
Definition strip (s : str) : str := rstrip (lstrip s).

(** [s.startswith(prefix)] *)
Fixpoint startswith (prefix s : str) : bool :=
  match prefix, s with
  | [], _ => true
  | p :: prefix', c :: s' => (p =? c)%N && startswith prefix' s'
  | _ :: _, [] => false
  end.

(** [s.split(sep)] for a one-character separator. *)
Fixpoint split (sep : char) (s : str) : list str :=
  match s with
  | [] => [[]]
  | c :: r =>
    if (c =? sep)%N then [] :: split sep r
    else match split sep r with
         | p :: ps => (c :: p) :: ps
         | [] => [[c]]
         end
  end.

(** [sep.join(parts)]. *)
Fixpoint join (sep : str) (parts : list str) : str :=
  match parts with
  | [] => []
  | [p] => p
  | p :: ps => p ++ sep ++ join sep ps
  end.

(** [s.partition(sep)] for a one-character separator that occurs in [s]:
    the text before and the text after its first occurrence. *)
Fixpoint partition (sep : char) (s : str) : str * str :=
  match s with
  | [] => ([], [])
  | c :: r =>
    if (c =? sep)%N then ([], r)
    else let '(k, v) := partition sep r in (c :: k, v)
  end.

(** [s.replace(c, '')] for a one-character [c]. *)
Definition remove_char (c : char) (s : str) : str :=
  filter (fun x => negb (x =? c)%N) s.

(** [a == b] *)
Definition str_eqb (a b : str) : bool :=
  if list_eq_dec N.eq_dec a b then true else false.

(** [s in l] for a list of strings. *)
Definition str_in (s : str) (l : list str) : bool := existsb (str_eqb s) l.

(** [not l] *)
Definition is_empty {A} (l : list A) : bool :=
  match l with [] => true | _ => false end.

(** [l[1:-1]] *)
Definition slice_1_m1 {A} (l : list A) : list A := removelast (tl l).

(** The longest prefix whose items satisfy [p], and the rest: the shape
    of [while i < len(lines) and p(lines[i]): acc.append(lines[i]); i += 1]. *)
Fixpoint span {A} (p : A -> bool) (l : list A) : list A * list A :=
  match l with
  | [] => ([], [])
  | x :: r =>
    if p x then let '(a, b) := span p r in (x :: a, b) else ([], l)
  end.

End Py.
Import Py.

(** ** Regular expressions of Python's [re] module

    The patterns of the source use no back-references and, except for the
    numbered-item pattern, no groups: a pattern matches at a position
    exactly when some string of its language starts there.  [fullmatch]
    decides the language by Brzozowski derivatives. *)

Module Re.

(** A character class is a predicate on code points. *)
Inductive regex :=
| Void
| Eps
| Class (p : char -> bool)
| Cat (a b : regex)
| Alt (a b : regex)
| Star (a : regex).

(** The empty string is in the language. *)
Fixpoint nullable (r : regex) : bool :=
  match r with
  | Void => false
  | Eps => true
  | Class _ => false
  | Cat a b => nullable a && nullable b
  | Alt a b => nullable a || nullable b
  | Star _ => true
  end.

(** The words that follow a first character [c]. *)
Fixpoint deriv (c : char) (r : regex) : regex :=
  match r with
  | Void => Void
  | Eps => Void
  | Class p => if p c then Eps else Void
  | Cat a b =>
    if nullable a then Alt (Cat (deriv c a) b) (deriv c b)
    else Cat (deriv c a) b
  | Alt a b => Alt (deriv c a) (deriv c b)
  | Star a => Cat (deriv c a) (Star a)
  end.

(** [re.fullmatch(r, s)] *)
Fixpoint fullmatch (r : regex) (s : str) : bool :=
  match s with
  | [] => nullable r
  | c :: s' => fullmatch (deriv c r) s'
  end.

(** A one-character literal of the source. *)
Definition ch (s : string) : char := hd 0%N (u s).

(** The forms that the patterns of the source use. *)

Definition Lit (c : char) : regex := Class (N.eqb c).          (* a literal  *)
Definition OneOf (s : str) : regex := Class (fun c => char_in c s). (* [...] *)
Definition Dot : regex := Class (fun c => negb (c =? NL)%N).   (* .          *)
Definition Any : regex := Class (fun _ => true).
Definition Space : regex := Class isspace.                     (* \s         *)
Definition Digit : regex := Class isdecimal.                   (* \d         *)
Definition Plus (r : regex) : regex := Cat r (Star r).         (* r+         *)
Definition AtLeast3 (r : regex) : regex :=                     (* r{3,}      *)
  Cat r (Cat r (Cat r (Star r))).
Definition Opt (r : regex) : regex := Alt Eps r.               (* r?         *)
Definition Seq (rs : list regex) : regex := fold_right Cat Eps rs.

(** [re.search(r, s)]: [r] matches somewhere in [s]. *)
Definition search (r : regex) (s : str) : bool :=
  fullmatch (Cat (Star Any) (Cat r (Star Any))) s.

(** [re.match(r, s)]: [r] matches at the start of [s]. *)
Definition match_ (r : regex) (s : str) : bool :=
  fullmatch (Cat r (Star Any)) s.

(** [re.match(r + '$', s)]: without MULTILINE, [$] holds at the end of
    [s] and just before a newline that ends [s]. *)
Definition match_to_end (r : regex) (s : str) : bool :=
  fullmatch (Cat r (Opt (Lit NL))) s.

(** The ways a greedy [p+] can match at the start of [s], the longest
    first; [k] receives the matched text and the rest, and its first
    success is the result (the order in which [re] backtracks). *)
Fixpoint greedy_plus {A} (p : char -> bool) (s : str)
         (k : str -> str -> option A) : option A :=
  match s with
  | [] => None
  | c :: r =>
    if p c then
      match greedy_plus p r (fun m rest => k (c :: m) rest) with
      | Some x => Some x
      | None => k [c] r
      end
    else None
  end.

(** Where [$] holds. *)
Definition at_end (s : str) : bool :=
  match s with
  | [] => true
  | [c] => (c =? NL)%N
  | _ => false
  end.

End Re.
Import Re.

(** ** The diagram detector *)

(** [box_patterns] *)
Definition box_patterns : list regex :=
  [ AtLeast3 (OneOf (u "+-|"));                       (* [\+\-\|]{3,}      *)
    Plus (OneOf (u "┌┐└┘├┤┬┴┼─│"));                   (* [┌┐└┘├┤┬┴┼─│]+    *)
    Seq [Lit (ch "["); Star Dot; Lit (ch "]"); Star Dot;
         Lit (ch "["); Star Dot; Lit (ch "]")];       (* \[.*\].*\[.*\]    *)
    AtLeast3 (Lit (ch "─"));                          (* ─{3,}             *)
    Seq [Lit (ch "│"); Star Space; Lit (ch "│")]      (* │\s*│             *)
  ].

(** The characters counted by the density check.  (The list
    [diagram_chars] of the source is never read.) *)
Definition density_chars : str :=
  u "─│┌┐└┘├┤┬┴┼═║╔╗╚╝╠╣╦╩╬+-|*/\<>^v[](){}".

(** [sum(1 for c in text if c in '...')] *)
Definition diagram_char_count (text : str) : nat :=
  length (filter (fun c => char_in c density_chars) text).

(** [len(text.replace(' ', '').replace('\n', ''))] *)
Definition total_chars (text : str) : nat :=
  length (remove_char NL (remove_char SPACE text)).

(** [diagram_char_count / total_chars > 0.15].  Python divides in
    binary64; the rounded quotient of two integers below 2^50 exceeds the
    literal [0.15] exactly when the exact quotient exceeds 15/100, which
    is the comparison made here. *)
Definition density_exceeds (count total : nat) : bool :=
  15 * total <? 100 * count.

(** The same comparison as Python evaluates it: both counts converted to
    binary64, divided, and compared with the double nearest to 0.15. *)
Module Binary64.
Import Floats.

Definition of_nat (n : nat) : float :=
  PrimFloat.of_uint63 (Uint63.of_Z (BinInt.Z.of_nat n)).

Definition density_exceeds (count total : nat) : bool :=
  PrimFloat.ltb 0x1.3333333333333p-3%float
                (PrimFloat.div (of_nat count) (of_nat total)).

End Binary64.

(** The patterns first, then the density. *)
Definition is_ascii_diagram (text : str) : bool :=
  if existsb (fun pattern => search pattern text) box_patterns then true
  else if (0 <? total_chars text)
          && density_exceeds (diagram_char_count text) (total_chars text)
  then true
  else false.

(** ** The table parser *)

(** [^[-:]+$] *)
Definition separator_cell : regex := Plus (OneOf (u "-:")).

(** [all(re.match(r'^[-:]+$', cell) for cell in cells)] *)
Definition is_separator (cells : list str) : bool :=
  forallb (match_to_end separator_cell) cells.

(** The cells of one stripped line. *)
Definition cells_of (line : str) : list str :=
  map strip (slice_1_m1 (split (ch "|") line)).

(** The [for] loop of [parse_markdown_table], from given [headers] and
    [rows]. *)
Fixpoint parse_markdown_table_loop (lines : list str)
         (headers : list str) (rows : list (list str))
  : list str * list (list str) :=
  match lines with
  | [] => (headers, rows)
  | line :: lines' =>
    let line := strip line in
    if negb (startswith (u "|") line) then
      parse_markdown_table_loop lines' headers rows
    else
      let cells := cells_of line in
      if is_separator cells then
        parse_markdown_table_loop lines' headers rows
      else if is_empty headers then
        parse_markdown_table_loop lines' cells rows
      else
        parse_markdown_table_loop lines' headers (rows ++ [cells])
  end.

(** The loop from [headers = []] and [rows = []]. *)
Definition parse_markdown_table (lines : list str)
  : list str * list (list str) :=
  parse_markdown_table_loop lines [] [].

(** ** The parser *)

(** The elements: the source's tuples [(element_type, content)]. *)
Inductive element :=
| Title (text : str)
| H1 (text : str)
| H2 (text : str)
| H3 (text : str)
| Paragraph (text : str)
| Bullet (text : str) (indent_level : nat)
| Numbered (text : str) (num : N)
| Code (code_content : str)
| Diagram (code_content : str)
| Table (headers : list str) (rows : list (list str))
| Metadata (key value : str).

(** [re.match(r'^(\d+)\.\s+(.+)$', stripped)]: groups 1 and 2. *)
Definition numbered_match (stripped : str) : option (str * str) :=
  greedy_plus isdecimal stripped (fun g1 r1 =>
    match r1 with
    | c :: r2 =>
      if (c =? ch ".")%N then
        greedy_plus isspace r2 (fun _ r3 =>
          greedy_plus (fun x => negb (x =? NL)%N) r3 (fun g2 r4 =>
            if at_end r4 then Some (g1, g2) else None))
      else None
    | [] => None
    end).

(** The same pattern without its groups: [^\d+\.\s+.+$] *)
Definition numbered_item : regex :=
  Seq [Plus Digit; Lit (ch "."); Plus Space; Plus Dot].

(** [^\d+\.\s] *)
Definition numbered_prefix : regex := Seq [Plus Digit; Lit (ch "."); Space].

(** [line.strip().startswith('```')] and [line.strip().startswith('|')]. *)
Definition is_fence (line : str) : bool := startswith (u "```") (strip line).

Definition is_table_line (line : str) : bool := startswith (u "|") (strip line).

(** The test that ends a paragraph, on a stripped line. *)
Definition para_break (next_line : str) : bool :=
  is_empty next_line || startswith (u "#") next_line
  || startswith (u "```") next_line || startswith (u "|") next_line
  || startswith (u "- ") next_line || startswith (u "* ") next_line
  || match_ numbered_prefix next_line.

(** The recognised metadata keys. *)
Definition metadata_keys : list str :=
  [u "Author"; u "Status"; u "Created"; u "Date"; u "Version"].

(** The paragraph branch: the line and the lines that continue it. *)
Definition parse_paragraph (stripped : str) (rest : list str)
           (elements : list element) : list str * list element :=
  let '(more, after) := span (fun l => negb (para_break (strip l))) rest in
  let para_lines := stripped :: map strip more in
  (after, elements ++ [Paragraph (join (u " ") para_lines)]).

(** One iteration of the [while] loop of [parse_rfc_content] on the line
    under the cursor and the lines after it: the lines left and the
    elements. *)
Definition parse_step (line : str) (rest : list str)
           (elements : list element) : list str * list element :=
  let stripped := strip line in
  if is_empty stripped then (rest, elements)
  else if startswith (u "# ") stripped && is_empty elements then
    (rest, elements ++ [Title (strip (skipn 2 stripped))])
  else if startswith (u "### ") stripped then
    (rest, elements ++ [H3 (strip (skipn 4 stripped))])
  else if startswith (u "## ") stripped then
    (rest, elements ++ [H2 (strip (skipn 3 stripped))])
  else if startswith (u "# ") stripped then
    (rest, elements ++ [H1 (strip (skipn 2 stripped))])
  else if startswith (u "```") stripped then
    let '(code_lines, after) := span (fun l => negb (is_fence l)) rest in
    let code_content := join [NL] code_lines in
    (tl after,
     elements ++ [if is_ascii_diagram code_content
                  then Diagram code_content else Code code_content])
  else if startswith (u "|") stripped then
    let '(table_lines, after) := span is_table_line (line :: rest) in
    let '(headers, rows) := parse_markdown_table table_lines in
    (after,
     if is_empty headers then elements else elements ++ [Table headers rows])
  else if startswith (u "- ") stripped || startswith (u "* ") stripped then
    let bullet_text := strip (skipn 2 stripped) in
    let indent_level := (length line - length (lstrip line)) / 2 in
    (rest, elements ++ [Bullet bullet_text indent_level])
  else
    match numbered_match stripped with
    | Some (g1, g2) => (rest, elements ++ [Numbered g2 (int g1)])
    | None =>
      if char_in (ch ":") stripped && (length elements <=? 2) then
        let '(key, value) := partition (ch ":") stripped in
        if str_in (strip key) metadata_keys then
          (rest, elements ++ [Metadata (strip key) (strip value)])
        else parse_paragraph stripped rest elements
      else parse_paragraph stripped rest elements
    end.

(** The [while i < len(lines)] loop; [fuel] bounds the number of
    iterations. *)
Fixpoint parse_loop (fuel : nat) (lines : list str) (elements : list element)
  : option (list element) :=
  match lines with
  | [] => Some elements
  | line :: rest =>
    match fuel with
    | O => None
    | S fuel' =>
      let '(lines', elements') := parse_step line rest elements in
      parse_loop fuel' lines' elements'
    end
  end.

(** The loop from the first line with no element, with as much fuel as
    there are lines; [None] only when the fuel runs out. *)
Definition parse_rfc_content (text : str) : option (list element) :=
  let lines := split NL text in
  parse_loop (length lines) lines [].

(** ** The renderer *)

(** The exception that the renderer's own code can raise, and the result
    of a call. *)
Inductive exn := IndexError.

Inductive outcome (A : Type) :=
| Raised (e : exn)
| Returned (a : A).
Arguments Raised {A} e.
Arguments Returned {A} a.

Definition bind {A B} (m : outcome A) (f : A -> outcome B) : outcome B :=
  match m with
  | Raised e => Raised e
  | Returned a => f a
  end.

Notation "x <- m ;; f" := (bind m (fun x => f))
  (at level 61, m at next level, right associativity).

(** The PNG buffer returned by [ascii_diagram_to_image]. *)
Definition png := list N.

(** A run of a paragraph: its text, and whether it is bold. *)
Record run := { run_text : str; run_bold : bool }.

(** What the source appends to the document. *)
Inductive block :=
| DocHeading (text : str) (level : nat) (centered : bool)
| DocParagraph (runs : list run)
| DocBullet (text : str) (level : nat)
| DocCodeBlock (code : str)
| DocPicture (img : png)
| DocTable (cells : list (list str)).

Definition document := list block.

(** The helpers that append one block. *)
Definition add_heading (doc : document) (text : str) (level : nat) : document :=
  doc ++ [DocHeading text level false].

Definition add_paragraph (doc : document) (text : str) : document :=
  doc ++ [DocParagraph [{| run_text := text; run_bold := false |}]].

Definition add_bullet_point (doc : document) (text : str) (level : nat)
  : document :=
  doc ++ [DocBullet text level].

Definition add_numbered_item (doc : document) (text : str) (number : N)
  : document :=
  add_paragraph doc (str_of_int number ++ u ". " ++ text).

Definition add_code_block (doc : document) (code : str) : document :=
  doc ++ [DocCodeBlock code].

(** [l[i] = x]; an index out of range raises. *)
Fixpoint set_item {A} (l : list A) (i : nat) (x : A) : outcome (list A) :=
  match l, i with
  | [], _ => Raised IndexError
  | _ :: r, O => Returned (x :: r)
  | y :: r, S i' => r' <- set_item r i' x ;; Returned (y :: r')
  end.

(** [for col_idx, cell_data in enumerate(row_data): row_cells[col_idx].text = ...],
    from column [col_idx]. *)
Fixpoint fill_cells (row_cells : list str) (col_idx : nat) (row_data : list str)
  : outcome (list str) :=
  match row_data with
  | [] => Returned row_cells
  | cell_data :: row_data' =>
    row_cells' <- set_item row_cells col_idx cell_data ;;
    fill_cells row_cells' (S col_idx) row_data'
  end.

(** The data rows, each filled into [cols] empty cells. *)
Fixpoint fill_rows (cols : nat) (rows : list (list str))
  : outcome (list (list str)) :=
  match rows with
  | [] => Returned []
  | row_data :: rows' =>
    row_cells <- fill_cells (repeat [] cols) 0 row_data ;;
    filled <- fill_rows cols rows' ;;
    Returned (row_cells :: filled)
  end.

(** A grid of [1 + len(rows)] rows of [len(headers)] cells, the headers
    in its first row. *)
Definition add_table (doc : document) (headers : list str)
           (rows : list (list str)) : outcome document :=
  header_cells <- fill_cells (repeat [] (length headers)) 0 headers ;;
  filled <- fill_rows (length headers) rows ;;
  Returned (doc ++ [DocTable (header_cells :: filled)]).

(** The paragraph that holds the buffered metadata. *)
Definition metadata_paragraph (metadata_items : list (str * str)) : block :=
  DocParagraph
    (flat_map (fun '(key, value) =>
                 [ {| run_text := key ++ u ": "; run_bold := true |};
                   {| run_text := value ++ [NL]; run_bold := false |} ])
              metadata_items).

(** [title or content] *)
Definition title_or (title : option str) (content : str) : str :=
  match title with
  | Some t => if is_empty t then content else t
  | None => content
  end.

Section Renderer.

(** [ascii_diagram_to_image]: [None] when it raises. *)
Variable ascii_diagram_to_image : str -> option png.

(** The body of the [for] loop of [convert_rfc_to_docx]. *)
Definition render_element (title : option str)
           (doc : document) (metadata_items : list (str * str))
           (elem : element) : outcome (document * list (str * str)) :=
  match elem with
  | Title content =>
    Returned (doc ++ [DocHeading (title_or title content) 0 true],
              metadata_items)
  | Metadata key value =>
    Returned (doc, metadata_items ++ [(key, value)])
  | H1 content =>
    let '(doc, metadata_items) :=
      if is_empty metadata_items then (doc, metadata_items)
      else (doc ++ [metadata_paragraph metadata_items; DocParagraph []], [])
    in
    Returned (add_heading doc content 1, metadata_items)
  | H2 content => Returned (add_heading doc content 2, metadata_items)
  | H3 content => Returned (add_heading doc content 3, metadata_items)
  | Paragraph content => Returned (add_paragraph doc content, metadata_items)
  | Bullet text level =>
    Returned (add_bullet_point doc text level, metadata_items)
  | Numbered text num =>
    Returned (add_numbered_item doc text num, metadata_items)
  | Code content => Returned (add_code_block doc content, metadata_items)
  | Diagram content =>
    match ascii_diagram_to_image content with
    | Some img_buf => Returned (doc ++ [DocPicture img_buf], metadata_items)
    | None => Returned (add_code_block doc content, metadata_items)
    end
  | Table headers rows =>
    doc' <- add_table doc headers rows ;;
    Returned (doc' ++ [DocParagraph []], metadata_items)
  end.

(** The [for] loop, from a document and a buffer. *)
Fixpoint render_loop (title : option str)
         (doc : document) (metadata_items : list (str * str))
         (elements : list element) : outcome (document * list (str * str)) :=
  match elements with
  | [] => Returned (doc, metadata_items)
  | elem :: elements' =>
    st <- render_element title doc metadata_items elem ;;
    render_loop title (fst st) (snd st) elements'
  end.

(** The traversal and the final flush: the document that is saved. *)
Definition render (title : option str) (elements : list element)
  : outcome document :=
  st <- render_loop title [] [] elements ;;
  let '(doc, metadata_items) := st in
  Returned (if is_empty metadata_items then doc
            else doc ++ [metadata_paragraph metadata_items]).

(** [None] only when the parser's loop runs out of fuel. *)
Definition convert_rfc_to_docx (markdown_text : str) (title : option str)
  : option (outcome document) :=
  match parse_rfc_content markdown_text with
  | Some elements => Some (render title elements)
  | None => None
  end.

End Renderer.

(** * The vocabulary of the properties *)

(** What the loop returns never holds a separator row: the headers are
    empty (no header row yet) or not a separator, and no row is one. *)
Definition separator_free (headers : list str) (rows : list (list str)) : bool :=
  (is_empty headers || negb (is_separator headers))
  && forallb (fun r => negb (is_separator r)) rows.

(** The language of a regular expression. *)
Inductive lang : regex -> str -> Prop :=
| lang_eps : lang Eps []
| lang_class p c : p c = true -> lang (Class p) [c]
| lang_cat a b s t : lang a s -> lang b t -> lang (Cat a b) (s ++ t)
| lang_alt_l a b s : lang a s -> lang (Alt a b) s
| lang_alt_r a b s : lang b s -> lang (Alt a b) s
| lang_star_nil a : lang (Star a) []
| lang_star_cons a s t : lang a s -> lang (Star a) t -> lang (Star a) (s ++ t).

#[local] Hint Constructors lang : core.

(** No box pattern matches anywhere in the text. *)
Definition no_pattern_matches (text : str) : bool :=
  negb (existsb (fun pattern => search pattern text) box_patterns).

(** The total as the specification words it: the characters that are not
    white space (a newline is white space). *)
Definition non_whitespace_chars (text : str) : nat :=
  length (filter (fun c => negb (isspace c)) text).



(** The kinds of elements and of blocks that the properties name. *)
Definition is_h1 (elem : element) : bool :=
  match elem with H1 _ => true | _ => false end.


(** The pairs of the metadata elements, in the order of the elements. *)
Definition metadata_of (elements : list element) : list (str * str) :=
  flat_map (fun elem => match elem with
                        | Metadata key value => [(key, value)]
                        | _ => []
                        end) elements.



(** A flushed metadata block: a paragraph that starts with a bold run. *)
Definition is_metadata_block (b : block) : bool :=
  match b with
  | DocParagraph (r :: _) => run_bold r
  | _ => false
  end.

(** A level-1 heading of the document. *)
Definition is_h1_block (b : block) : bool :=
  match b with
  | DocHeading _ 1 _ => true
  | _ => false
  end.

(** Neither a metadata block nor a level-1 heading. *)
Definition plain_block (b : block) : bool :=
  negb (is_metadata_block b) && negb (is_h1_block b).

(** Two prefixes that differ at a position they both have. *)
Fixpoint clash (a b : str) : bool :=
  match a, b with
  | x :: a', y :: b' => negb (x =? y)%N || clash a' b'
  | _, _ => false
  end.

(** The title element. *)
Definition is_title (elem : element) : bool :=
  match elem with Title _ => true | _ => false end.

(** A line whose stripped form starts with [# ]. *)
Definition is_hash_line (line : str) : bool :=
  startswith (u "# ") (strip line).

(** [stripped[2:].strip()] *)
Definition heading_text (line : str) : str := strip (skipn 2 (strip line)).

(** The lines starting with [# ] that stand outside fenced blocks;
    [in_code] tells whether a fence is open. *)
Fixpoint top_level_hash_lines (in_code : bool) (lines : list str) : list str :=
  match lines with
  | [] => []
  | line :: rest =>
    if is_fence line then top_level_hash_lines (negb in_code) rest
    else if negb in_code && is_hash_line line then
      line :: top_level_hash_lines in_code rest
    else top_level_hash_lines in_code rest
  end.

(** The texts of the title and of the level-1 headings of a list of
    elements, and of its level-1 headings alone. *)
Definition top_heading_texts (elements : list element) : list str :=
  flat_map (fun elem => match elem with
                        | Title text | H1 text => [text]
                        | _ => []
                        end) elements.

Definition h1_texts (elements : list element) : list str :=
  flat_map (fun elem => match elem with
                        | H1 text => [text]
                        | _ => []
                        end) elements.

(** The texts of the level-1 headings of a document. *)
Definition h1_block_texts (doc : document) : list str :=
  flat_map (fun b => match b with
                     | DocHeading text 1 _ => [text]
                     | _ => []
                     end) doc.

(** The words of the pattern, and where its [$] holds. *)
Definition numbered_shape (s g1 g2 : str) : Prop :=
  exists ws e,
    s = g1 ++ ch "." :: ws ++ g2 ++ e
    /\ (is_empty g1 = false /\ forallb isdecimal g1 = true)
    /\ (is_empty ws = false /\ forallb isspace ws = true)
    /\ (is_empty g2 = false /\ forallb (fun x => negb (x =? NL)%N) g2 = true)
    /\ at_end e = true.

(** ** The vocabulary of the further properties *)

(** The cell rows of a table region that are not separator rows, in the
    order of the lines. *)
Definition table_rows (lines : list str) : list (list str) :=
  filter (fun cells => negb (is_separator cells))
         (map (fun line => cells_of (strip line)) (filter is_table_line lines)).

(** A cell as the table parser leaves it: without surrounding white space
    and without a [|]. *)
Definition clean_cell (cell : str) : Prop :=
  strip cell = cell /\ ~ In (ch "|") cell.

(** A data row in a grid of [cols] columns: its cells, then empty cells. *)
Definition pad_row (cols : nat) (row_data : list str) : list str :=
  row_data ++ repeat [] (cols - length row_data).

(** The data row is not longer than the header row. *)
Definition row_fits (headers row_data : list str) : bool :=
  length row_data <=? length headers.

(** The runs that the flush writes for the buffered pairs: for each pair
    the bold [key: ] and then the value followed by a newline. *)
Definition metadata_runs (metadata_items : list (str * str)) : list run :=
  flat_map (fun '(key, value) =>
              [ {| run_text := key ++ u ": "; run_bold := true |};
                {| run_text := value ++ [NL]; run_bold := false |} ])
           metadata_items.

(** The runs of the metadata blocks of a document, in its order. *)
Definition document_metadata_runs (doc : document) : list run :=
  flat_map (fun b => match b with
                     | DocParagraph runs =>
                       if is_metadata_block b then runs else []
                     | _ => []
                     end) doc.

(** The title block: a heading of level 0. *)
Definition is_title_block (b : block) : bool :=
  match b with
  | DocHeading _ 0 _ => true
  | _ => false
  end.

(** A document with the text of its level-0 headings overridden. *)
Definition retitle (title : option str) (doc : document) : document :=
  map (fun b => match b with
                | DocHeading text 0 centered =>
                  DocHeading (title_or title text) 0 centered
                | _ => b
                end) doc.

(** A function applied to what a call returns. *)
Definition map_outcome {A B} (f : A -> B) (o : outcome A) : outcome B :=
  match o with
  | Returned a => Returned (f a)
  | Raised e => Raised e
  end.

(** A line that continues a paragraph: its stripped form does not end
    one. *)
Definition continues_paragraph (line : str) : bool :=
  negb (para_break (strip line)).

(** The text before the first [:] of the stripped line, stripped, is one
    of the recognised keys. *)
Definition has_recognized_key (line : str) : bool :=
  str_in (strip (fst (partition (ch ":") (strip line)))) metadata_keys.

(** A text that starts with a character that is not white space, and
    holds no newline. *)
Definition item_text (text : str) : Prop :=
  match text with
  | [] => False
  | c :: _ => isspace c = false
  end /\ ~ In NL text.

(** The level of a sub-heading line: 3 for [### ], 2 for [## ]. *)
Definition sub_heading_level (line : str) : option nat :=
  if startswith (u "### ") (strip line) then Some 3
  else if startswith (u "## ") (strip line) then Some 2
  else None.

(** The sub-heading lines that stand outside fenced blocks, each with
    its level and the stripped text after its marker; [in_code] tells
    whether a fence is open. *)
Fixpoint sub_heading_lines (in_code : bool) (lines : list str)
  : list (nat * str) :=
  match lines with
  | [] => []
  | line :: rest =>
    if is_fence line then sub_heading_lines (negb in_code) rest
    else
      match (if in_code then None else sub_heading_level line) with
      | Some level =>
        (level, strip (skipn (S level) (strip line)))
          :: sub_heading_lines in_code rest
      | None => sub_heading_lines in_code rest
      end
  end.

(** The level-2 and level-3 headings of a list of elements and of a
    document, with their levels. *)
Definition sub_headings (elements : list element) : list (nat * str) :=
  flat_map (fun elem => match elem with
                        | H2 text => [(2, text)]
                        | H3 text => [(3, text)]
                        | _ => []
                        end) elements.

Definition sub_heading_blocks (doc : document) : list (nat * str) :=
  flat_map (fun b => match b with
                     | DocHeading text 2 _ => [(2, text)]
                     | DocHeading text 3 _ => [(3, text)]
                     | _ => []
                     end) doc.

(** A text that is not empty and has no white space at either end. *)
Definition trimmed (text : str) : Prop := text <> [] /\ strip text = text.

(** What holds of every element that the parser appends. *)
Definition well_formed (elem : element) : Prop :=
  match elem with
  | Title text | H1 text | H2 text | H3 text | Paragraph text => trimmed text
  | Bullet text _ => trimmed text
  | Numbered text _ => trimmed text
  | Code code_content => is_ascii_diagram code_content = false
  | Diagram code_content => is_ascii_diagram code_content = true
  | Table headers rows =>
    headers <> [] /\ Forall clean_cell headers
    /\ Forall (Forall clean_cell) rows
  | Metadata key value => In key metadata_keys /\ strip value = value
  end.

(** The layout that [ascii_diagram_to_image] computes before it draws:
    [lines = diagram_text.strip().split('\n')],
    [max(len(line) for line in lines) if lines else 40] and [len(lines)]. *)
Definition diagram_lines (diagram_text : str) : list str :=
  split NL (strip diagram_text).

Definition max_width (lines : list str) : nat :=
  if is_empty lines then 40 else list_max (map (@length char) lines).

Definition height (lines : list str) : nat := length lines.

(** * Properties *)

(** ** Lists and strings *)

Lemma span_app {A} (p : A -> bool) (l a b : list A) :
  span p l = (a, b) -> l = a ++ b.
Proof.
  revert a b; induction l as [|x l IH]; intros a b; simpl.
  - intros E; inversion E; reflexivity.
  - destruct (p x).
    + destruct (span p l) as [a' b'] eqn:E'. intros E; inversion E; subst.
      simpl; f_equal; apply IH; reflexivity.
    + intros E; inversion E; reflexivity.
Qed.

Lemma span_rest_length {A} (p : A -> bool) (l a b : list A) :
  span p l = (a, b) -> length b <= length l.
Proof.
  intros E. apply span_app in E. subst l. rewrite length_app. lia.
Qed.

Lemma span_all {A} (p : A -> bool) (l a b : list A) :
  span p l = (a, b) -> forallb p a = true.
Proof.
  revert a b; induction l as [|x l IH]; intros a b; simpl.
  - intros E; inversion E; reflexivity.
  - destruct (p x) eqn:Px.
    + destruct (span p l) as [a' b'] eqn:E'. intros E; inversion E; subst.
      simpl. rewrite Px. apply (IH a' b). reflexivity.
    + intros E; inversion E; reflexivity.
Qed.

Lemma span_stop {A} (p : A -> bool) (l a : list A) (x : A) (b : list A) :
  span p l = (a, x :: b) -> p x = false.
Proof.
  revert a; induction l as [|y l IH]; intros a; simpl.
  - intros E; inversion E.
  - destruct (p y) eqn:Py.
    + destruct (span p l) as [a' b'] eqn:E'. intros E; inversion E; subst.
      apply (IH a'). reflexivity.
    + intros E; inversion E; subst. exact Py.
Qed.

(** ** The parser's loop *)

Lemma parse_paragraph_bounds stripped rest els lines' els' :
  parse_paragraph stripped rest els = (lines', els') ->
  length lines' <= length rest /\ length els' <= S (length els).
Proof.
  unfold parse_paragraph.
  destruct (span _ rest) as [more after] eqn:E. intros H; inversion H; subst.
  split; [eapply span_rest_length; eauto|].
  rewrite length_app; simpl; lia.
Qed.

Ltac one_more_element :=
  match goal with
  | H : (_, _) = (_, _) |- _ =>
    inversion H; subst; clear H;
    split; [try lia | try (rewrite length_app; simpl; lia); try lia]
  end.

(** An iteration consumes the line under the cursor, possibly more, and
    appends at most one element. *)
Lemma parse_step_bounds line rest els lines' els' :
  parse_step line rest els = (lines', els') ->
  length lines' <= length rest /\ length els' <= S (length els).
Proof.
  unfold parse_step.
  destruct (is_empty (strip line)); [intros; one_more_element|].
  destruct (startswith (u "# ") (strip line) && is_empty els);
    [intros; one_more_element|].
  destruct (startswith (u "### ") (strip line)); [intros; one_more_element|].
  destruct (startswith (u "## ") (strip line)); [intros; one_more_element|].
  destruct (startswith (u "# ") (strip line)); [intros; one_more_element|].
  destruct (startswith (u "```") (strip line)).
  { destruct (span _ rest) as [code_lines after] eqn:E.
    intros H; inversion H; subst; clear H.
    apply span_rest_length in E. split.
    - destruct after; simpl in *; lia.
    - rewrite length_app; simpl; lia. }
  destruct (startswith (u "|") (strip line)) eqn:Et.
  { change (span is_table_line (line :: rest))
      with (if is_table_line line
            then let '(a, b) := span is_table_line rest in (line :: a, b)
            else ([], line :: rest)).
    unfold is_table_line at 1. rewrite Et.
    destruct (span is_table_line rest) as [a b] eqn:E.
    destruct (parse_markdown_table (line :: a)) as [headers rows].
    intros H; inversion H; subst; clear H.
    apply span_rest_length in E. split; [exact E|].
    destruct (is_empty headers); [lia|]. rewrite length_app; simpl; lia. }
  destruct (startswith (u "- ") (strip line) || startswith (u "* ") (strip line));
    [intros; one_more_element|].
  destruct (numbered_match (strip line)) as [[g1 g2]|];
    [intros; one_more_element|].
  destruct (char_in (ch ":") (strip line) && (length els <=? 2));
    [|apply parse_paragraph_bounds].
  destruct (partition (ch ":") (strip line)) as [key value].
  destruct (str_in (strip key) metadata_keys);
    [intros; one_more_element|apply parse_paragraph_bounds].
Qed.

Lemma parse_loop_total fuel : forall lines els,
  length lines <= fuel ->
  exists elements,
    parse_loop fuel lines els = Some elements
    /\ length elements <= length els + length lines.
Proof.
  induction fuel as [|fuel IH]; intros lines els Hf.
  - destruct lines; simpl in *; [|lia]. exists els; split; [reflexivity|lia].
  - destruct lines as [|line rest]; simpl.
    + exists els; split; [reflexivity|lia].
    + destruct (parse_step line rest els) as [lines' els'] eqn:E.
      apply parse_step_bounds in E. destruct E as [E1 E2].
      simpl in Hf.
      destruct (IH lines' els') as [r [R1 R2]]; [lia|].
      exists r; split; [exact R1|lia].
Qed.


(** ** The table parser *)

Lemma parse_markdown_table_loop_cons line lines headers rows :
  parse_markdown_table_loop (line :: lines) headers rows
  = if negb (startswith (u "|") (strip line)) then
      parse_markdown_table_loop lines headers rows
    else if is_separator (cells_of (strip line)) then
      parse_markdown_table_loop lines headers rows
    else if is_empty headers then
      parse_markdown_table_loop lines (cells_of (strip line)) rows
    else
      parse_markdown_table_loop lines headers (rows ++ [cells_of (strip line)]).
Proof. reflexivity. Qed.

Lemma parse_markdown_table_loop_separator_free lines : forall headers rows,
  separator_free headers rows = true ->
  separator_free (fst (parse_markdown_table_loop lines headers rows))
                 (snd (parse_markdown_table_loop lines headers rows)) = true.
Proof.
  induction lines as [|line lines IH]; intros headers rows Inv.
  - exact Inv.
  - rewrite parse_markdown_table_loop_cons.
    destruct (negb (startswith (u "|") (strip line))); [apply IH; exact Inv|].
    destruct (is_separator (cells_of (strip line))) eqn:Sep;
      [apply IH; exact Inv|].
    unfold separator_free in Inv. apply andb_true_iff in Inv.
    destruct Inv as [Ih Ir].
    destruct (is_empty headers) eqn:Eh; apply IH; unfold separator_free.
    + rewrite Sep, Ir. simpl. rewrite orb_true_r. reflexivity.
    + rewrite Eh in *. simpl in Ih. rewrite Ih. simpl.
      rewrite forallb_app, Ir. simpl. rewrite Sep. reflexivity.
Qed.

(** A line that the loop skips leaves no trace in the result. *)
Lemma parse_markdown_table_loop_skip before line after : forall headers rows,
  is_separator (cells_of (strip line)) = true ->
  parse_markdown_table_loop (before ++ line :: after) headers rows
  = parse_markdown_table_loop (before ++ after) headers rows.
Proof.
  induction before as [|b before IH]; intros headers rows Sep;
    cbn [app]; rewrite !parse_markdown_table_loop_cons.
  - rewrite Sep. destruct (negb (startswith (u "|") (strip line))); reflexivity.
  - destruct (negb (startswith (u "|") (strip b))); [apply IH; exact Sep|].
    destruct (is_separator (cells_of (strip b))); [apply IH; exact Sep|].
    destruct (is_empty headers); apply IH; exact Sep.
Qed.

(** C4. The region [| A | B |], [|---|---|], [| 1 | 2 |] parses to one
    table with headers [A], [B] and the row [1], [2]; for every list of
    captured lines, neither the headers (when a header row was found) nor
    any returned row consists of cells that all match [^[-:]+$]; and a
    captured line whose cells all match it can be removed from the region
    without changing the result. *)
Theorem table_separator_row_never_returned :
  parse_rfc_content
    (join [NL] [u "| A | B |"; u "|---|---|"; u "| 1 | 2 |"])
  = Some [Table [u "A"; u "B"] [[u "1"; u "2"]]]
  /\ (forall lines,
        separator_free (fst (parse_markdown_table lines))
                       (snd (parse_markdown_table lines)) = true)
  /\ (forall before line after,
        is_separator (cells_of (strip line)) = true ->
        parse_markdown_table (before ++ line :: after)
        = parse_markdown_table (before ++ after)).
Proof.
  split; [vm_compute; reflexivity|]. split.
  - intros lines. apply parse_markdown_table_loop_separator_free. reflexivity.
  - intros before line after Sep.
    apply parse_markdown_table_loop_skip. exact Sep.
Qed.

(** A region with the separator [|:--|--:|] between a header row and a data
    row. *)
Lemma table_separator_row_never_returned_witness :
  parse_markdown_table ([u "| A | B |"] ++ u "|:--|--:|" :: [u "| 1 | 2 |"])
  = parse_markdown_table ([u "| A | B |"] ++ [u "| 1 | 2 |"]).
Proof.
  apply (proj2 (proj2 table_separator_row_never_returned)).
  vm_compute. reflexivity.
Defined.

Lemma split_nonempty sep s : split sep s <> [].
Proof.
  destruct s as [|c r]; simpl; [discriminate|].
  destruct (c =? sep)%N; [discriminate|].
  destruct (split sep r); discriminate.
Qed.

Lemma split_length sep s :
  length (split sep s) = S (count_occ N.eq_dec s sep).
Proof.
  induction s as [|c r IH]; simpl; [reflexivity|].
  destruct (N.eqb_spec c sep) as [->|Hne].
  - destruct (N.eq_dec sep sep); [|congruence]. simpl. rewrite IH. reflexivity.
  - destruct (N.eq_dec c sep); [congruence|].
    destruct (split sep r) eqn:E; simpl in *; [discriminate|exact IH].
Qed.

Lemma slice_1_m1_nil {A} (l : list A) :
  slice_1_m1 l = [] <-> length l <= 2.
Proof.
  unfold slice_1_m1.
  destruct l as [|a [|b [|c l]]]; simpl; split; intros H; try reflexivity;
    try lia; try discriminate.
Qed.

Lemma cells_of_nil line :
  cells_of line = [] <-> count_occ N.eq_dec line (ch "|") <= 1.
Proof.
  unfold cells_of. split.
  - intros H. apply map_eq_nil in H. apply slice_1_m1_nil in H.
    rewrite split_length in H. lia.
  - intros H.
    assert (E : slice_1_m1 (split (ch "|") line) = []).
    { apply slice_1_m1_nil. rewrite split_length. lia. }
    rewrite E. reflexivity.
Qed.

(** C9, as the code has it. The interior cell list of a line is empty
    exactly when the stripped line holds at most one [|]; such a line is
    skipped as a separator row is and can be removed from the region
    without changing the headers or the rows. *)
Theorem line_without_cells_skipped (line : str) :
  (cells_of (strip line) = []
   <-> count_occ N.eq_dec (strip line) (ch "|") <= 1)
  /\ (cells_of (strip line) = [] ->
      is_separator (cells_of (strip line)) = true
      /\ forall before after,
          parse_markdown_table (before ++ line :: after)
          = parse_markdown_table (before ++ after)).
Proof.
  split; [apply cells_of_nil|].
  intros E.
  assert (Sep : is_separator (cells_of (strip line)) = true)
    by (rewrite E; reflexivity).
  split; [exact Sep|].
  intros before after. apply parse_markdown_table_loop_skip. exact Sep.
Qed.

(** The line [| note], with one [|], between a header row and a data row. *)
Lemma line_without_cells_skipped_witness :
  parse_markdown_table ([u "| h |"] ++ u "| note" :: [u "| 1 |"])
  = parse_markdown_table ([u "| h |"] ++ [u "| 1 |"]).
Proof.
  refine (proj2 (proj2 (line_without_cells_skipped (u "| note")) _) _ _).
  vm_compute. reflexivity.
Defined.

(** C9, as stated, fails on the line [||]: its interior cell list is the
    one empty cell, which is no separator, so the line becomes the headers
    or a data row. *)
Lemma double_pipe_line_contributes :
  cells_of (strip (u "||")) = [u ""]
  /\ parse_markdown_table [u "||"] = ([u ""], [])
  /\ parse_markdown_table [u "| h |"; u "||"] = ([u "h"], [[u ""]]).
Proof. vm_compute. repeat split. Qed.

(** ** The language of a regular expression *)

Lemma lang_void_inv w : lang Void w -> False.
Proof. intros H; inversion H. Qed.

Lemma lang_eps_inv w : lang Eps w -> w = [].
Proof. intros H; inversion H; reflexivity. Qed.

Lemma lang_class_inv p w : lang (Class p) w -> exists c, w = [c] /\ p c = true.
Proof. intros H; inversion H; subst; eauto. Qed.

Lemma lang_cat_inv a b w :
  lang (Cat a b) w -> exists s t, w = s ++ t /\ lang a s /\ lang b t.
Proof. intros H; inversion H; subst; eauto. Qed.

Lemma lang_alt_inv a b w : lang (Alt a b) w -> lang a w \/ lang b w.
Proof. intros H; inversion H; subst; auto. Qed.

Lemma nullable_lang r : nullable r = true <-> lang r [].
Proof.
  induction r as [| |p|a IHa b IHb|a IHa b IHb|a IHa]; simpl; split; intros H;
    try discriminate; auto.
  - destruct (lang_void_inv _ H).
  - apply lang_class_inv in H. destruct H as [c [E _]]. discriminate.
  - apply andb_true_iff in H. destruct H as [Ha Hb].
    change (@nil char) with (@nil char ++ []). apply lang_cat; tauto.
  - apply lang_cat_inv in H. destruct H as [s [t [E [Hs Ht]]]].
    symmetry in E. apply app_eq_nil in E. destruct E; subst.
    apply andb_true_iff; tauto.
  - apply orb_true_iff in H.
    destruct H; [apply lang_alt_l|apply lang_alt_r]; tauto.
  - apply orb_true_iff. apply lang_alt_inv in H. tauto.
Qed.

(** A non-empty word of [Star a] starts with a non-empty word of [a]. *)
Lemma lang_star_uncons a w :
  lang (Star a) w -> forall c s, w = c :: s ->
  exists s1 s2, s = s1 ++ s2 /\ lang a (c :: s1) /\ lang (Star a) s2.
Proof.
  intros H. remember (Star a) as r eqn:Er. revert Er.
  induction H as [| | | | | |a' s t Hs _ Ht IHt]; intros Er; try discriminate.
  inversion Er; subst a'. intros c0 s0 E.
  destruct s as [|c' s1]; simpl in E.
  - apply IHt; [reflexivity|exact E].
  - inversion E; subst. exists s1, t. auto.
Qed.

Lemma deriv_lang r : forall c s, lang (deriv c r) s <-> lang r (c :: s).
Proof.
  induction r as [| |p|a IHa b IHb|a IHa b IHb|a IHa]; simpl; intros c s.
  - split; intros H; destruct (lang_void_inv _ H).
  - split; intros H; [destruct (lang_void_inv _ H)|].
    apply lang_eps_inv in H. discriminate.
  - destruct (p c) eqn:Pc; split; intros H.
    + apply lang_eps_inv in H. subst. auto.
    + apply lang_class_inv in H. destruct H as [c' [E _]].
      inversion E; subst. auto.
    + destruct (lang_void_inv _ H).
    + apply lang_class_inv in H. destruct H as [c' [E Pc']].
      inversion E; subst. congruence.
  - destruct (nullable a) eqn:Na; split; intros H.
    + apply lang_alt_inv in H. destruct H as [H|H].
      * apply lang_cat_inv in H. destruct H as [s1 [s2 [E [Hs1 Hs2]]]]. subst.
        apply IHa in Hs1. change (c :: s1 ++ s2) with ((c :: s1) ++ s2). auto.
      * apply IHb in H. apply nullable_lang in Na.
        change (c :: s) with ([] ++ c :: s). auto.
    + apply lang_cat_inv in H. destruct H as [s1 [s2 [E [Hs1 Hs2]]]].
      destruct s1 as [|c' s1]; simpl in E.
      * subst s2. apply lang_alt_r. apply IHb. exact Hs2.
      * inversion E; subst. apply lang_alt_l. apply lang_cat; [|exact Hs2].
        apply IHa. exact Hs1.
    + apply lang_cat_inv in H. destruct H as [s1 [s2 [E [Hs1 Hs2]]]]. subst.
      apply IHa in Hs1. change (c :: s1 ++ s2) with ((c :: s1) ++ s2). auto.
    + apply lang_cat_inv in H. destruct H as [s1 [s2 [E [Hs1 Hs2]]]].
      destruct s1 as [|c' s1]; simpl in E.
      * apply nullable_lang in Hs1. congruence.
      * inversion E; subst. apply lang_cat; [|exact Hs2]. apply IHa. exact Hs1.
  - split; intros H; apply lang_alt_inv in H; destruct H as [H|H].
    + apply lang_alt_l, IHa; assumption.
    + apply lang_alt_r, IHb; assumption.
    + apply lang_alt_l, IHa; assumption.
    + apply lang_alt_r, IHb; assumption.
  - split; intros H.
    + apply lang_cat_inv in H. destruct H as [s1 [s2 [E [Hs1 Hs2]]]]. subst.
      apply IHa in Hs1. change (c :: s1 ++ s2) with ((c :: s1) ++ s2). auto.
    + destruct (lang_star_uncons a (c :: s) H c s eq_refl) as [s1 [s2 [E [H1 H2]]]]. subst.
      apply lang_cat; [|exact H2]. apply IHa. exact H1.
Qed.

(** [fullmatch] decides the language. *)
Lemma fullmatch_lang s : forall r, fullmatch r s = true <-> lang r s.
Proof.
  induction s as [|c s IH]; intros r; simpl.
  - apply nullable_lang.
  - rewrite IH. apply deriv_lang.
Qed.

Lemma lang_star_any s : lang (Star Any) s.
Proof.
  induction s as [|c s IH]; [auto|].
  change (c :: s) with ([c] ++ s). apply lang_star_cons; [|exact IH].
  apply lang_class. reflexivity.
Qed.

(** [re.search]: some substring is in the language. *)
Lemma search_lang r s :
  search r s = true <-> exists pre m post, s = pre ++ m ++ post /\ lang r m.
Proof.
  unfold search. rewrite fullmatch_lang. split.
  - intros H. apply lang_cat_inv in H. destruct H as [pre [t [E [_ Ht]]]].
    apply lang_cat_inv in Ht. destruct Ht as [m [post [E' [Hm _]]]]. subst.
    exists pre, m, post. auto.
  - intros [pre [m [post [E Hm]]]]. subst.
    apply lang_cat; [apply lang_star_any|].
    apply lang_cat; [exact Hm|apply lang_star_any].
Qed.

(** [re.match]: some prefix is in the language. *)
Lemma match_lang r s :
  match_ r s = true <-> exists m post, s = m ++ post /\ lang r m.
Proof.
  unfold match_. rewrite fullmatch_lang. split.
  - intros H. apply lang_cat_inv in H. destruct H as [m [post [E [Hm _]]]].
    exists m, post. auto.
  - intros [m [post [E Hm]]]. subst.
    apply lang_cat; [exact Hm|apply lang_star_any].
Qed.

(** ** The diagram detector *)

Lemma char_in_true c s : char_in c s = true <-> In c s.
Proof.
  unfold char_in. rewrite existsb_exists. split.
  - intros [x [Hx E]]. apply N.eqb_eq in E. subst. exact Hx.
  - intros H. exists c. split; [exact H|apply N.eqb_refl].
Qed.


(** No counted character is a space or a newline. *)
Lemma density_char_not_blank c :
  char_in c density_chars = true ->
  (c =? SPACE)%N = false /\ (c =? NL)%N = false.
Proof.
  intros H. apply char_in_true in H.
  assert (A : forallb (fun x => negb (x =? SPACE)%N && negb (x =? NL)%N)
                      density_chars = true) by (vm_compute; reflexivity).
  rewrite forallb_forall in A. specialize (A c H).
  apply andb_true_iff in A. destruct A as [A1 A2].
  apply negb_true_iff in A1. apply negb_true_iff in A2. auto.
Qed.

Lemma density_char_not_space c :
  char_in c density_chars = true -> isspace c = false.
Proof.
  intros H. apply char_in_true in H.
  assert (A : forallb (fun x => negb (isspace x)) density_chars = true)
    by (vm_compute; reflexivity).
  rewrite forallb_forall in A. specialize (A c H).
  apply negb_true_iff in A. exact A.
Qed.

Lemma diagram_char_count_le_total text :
  diagram_char_count text <= total_chars text.
Proof.
  unfold diagram_char_count, total_chars, remove_char.
  induction text as [|c text IH]; cbn [filter length]; [lia|].
  destruct (char_in c density_chars) eqn:D.
  - destruct (density_char_not_blank c D) as [E1 E2].
    rewrite E1. cbn [negb filter]. rewrite E2. cbn [negb length]. lia.
  - destruct (c =? SPACE)%N; cbn [negb filter]; [exact IH|].
    destruct (c =? NL)%N; cbn [negb length]; lia.
Qed.




(** Without a matching pattern the density decides. *)
Lemma is_ascii_diagram_fallback text :
  no_pattern_matches text = true ->
  is_ascii_diagram text
  = density_exceeds (diagram_char_count text) (total_chars text).
Proof.
  unfold no_pattern_matches, is_ascii_diagram. intros H.
  apply negb_true_iff in H. rewrite H.
  destruct (0 <? total_chars text) eqn:T; simpl.
  - destruct (density_exceeds _ _); reflexivity.
  - apply Nat.ltb_ge in T. pose proof (diagram_char_count_le_total text).
    unfold density_exceeds. symmetry. apply Nat.ltb_ge. lia.
Qed.

(** ** Splitting and joining *)

Lemma split_app sep x y :
  split sep (x ++ sep :: y) = split sep x ++ split sep y.
Proof.
  induction x as [|c x IH]; cbn [app split].
  - rewrite N.eqb_refl. reflexivity.
  - destruct (c =? sep)%N; [rewrite IH; reflexivity|].
    rewrite IH. pose proof (split_nonempty sep x) as Hne.
    destruct (split sep x) as [|p ps]; [congruence|reflexivity].
Qed.

Lemma split_no_sep sep s : ~ In sep s -> split sep s = [s].
Proof.
  induction s as [|c s IH]; intros Hn; cbn [split]; [reflexivity|].
  destruct (N.eqb_spec c sep) as [->|Hne].
  - exfalso. apply Hn. left. reflexivity.
  - rewrite IH; [reflexivity|]. intros H. apply Hn. right. exact H.
Qed.

Lemma join_split sep s : join [sep] (split sep s) = s.
Proof.
  induction s as [|c s IH]; cbn [split]; [reflexivity|].
  destruct (N.eqb_spec c sep) as [->|Hne].
  - pose proof (split_nonempty sep s) as Hne.
    destruct (split sep s) as [|p ps] eqn:E; [congruence|].
    cbn [join app] in *. rewrite IH. reflexivity.
  - pose proof (split_nonempty sep s) as Hne'.
    destruct (split sep s) as [|p ps] eqn:E; [congruence|].
    destruct ps as [|q ps]; cbn [join app] in *; rewrite <- IH; reflexivity.
Qed.


Lemma span_all_true {A} (p : A -> bool) a :
  forallb p a = true -> span p a = (a, []).
Proof.
  intros Ha. induction a as [|y a IH]; cbn [span]; [reflexivity|].
  cbn [forallb] in Ha. apply andb_true_iff in Ha. destruct Ha as [Hy Ha].
  rewrite Hy, (IH Ha). reflexivity.
Qed.

(** ** Prefixes *)

Lemma startswith_clash a : forall b s,
  startswith a s = true -> clash a b = true -> startswith b s = false.
Proof.
  induction a as [|x a IH]; intros b s; [discriminate 2|].
  destruct b as [|y b]; [discriminate 2|].
  destruct s as [|c s]; [discriminate 1|].
  cbn [startswith clash]. intros H C.
  apply andb_true_iff in H. destruct H as [Hx Ha].
  apply N.eqb_eq in Hx. subst c.
  destruct (N.eqb_spec y x) as [->|Hne]; [|reflexivity].
  rewrite N.eqb_refl in C. cbn [negb orb andb] in *.
  apply (IH b s Ha C).
Qed.

Lemma startswith_prefix a : forall b s,
  startswith (a ++ b) s = true -> startswith a s = true.
Proof.
  induction a as [|x a IH]; intros b s; [reflexivity|].
  destruct s as [|c s]; cbn [app startswith]; [discriminate|].
  intros H. apply andb_true_iff in H. destruct H as [Hx Ha].
  rewrite Hx. apply (IH b s Ha).
Qed.

Lemma startswith_nil a : is_empty a = false -> startswith a [] = false.
Proof. destruct a; [discriminate|reflexivity]. Qed.

Lemma startswith_not_empty a s :
  startswith a s = true -> is_empty a = false -> is_empty s = false.
Proof.
  destruct a, s; cbn; intros; congruence.
Qed.

Lemma parse_loop_nil fuel els : parse_loop fuel [] els = Some els.
Proof. destruct fuel; reflexivity. Qed.

Lemma parse_loop_cons fuel line rest els :
  parse_loop (S fuel) (line :: rest) els
  = parse_loop fuel (fst (parse_step line rest els))
               (snd (parse_step line rest els)).
Proof.
  cbn [parse_loop]. destruct (parse_step line rest els). reflexivity.
Qed.

(** The iteration at an opening fence. *)
Lemma parse_step_fence line rest els :
  is_fence line = true ->
  parse_step line rest els
  = (tl (snd (span (fun l => negb (is_fence l)) rest)),
     els ++ [let code_content :=
               join [NL] (fst (span (fun l => negb (is_fence l)) rest)) in
             if is_ascii_diagram code_content
             then Diagram code_content else Code code_content]).
Proof.
  unfold is_fence. intros F. unfold parse_step.
  rewrite (startswith_not_empty _ _ F eq_refl).
  rewrite (startswith_clash _ (u "# ") _ F eq_refl).
  rewrite (startswith_clash _ (u "### ") _ F eq_refl).
  rewrite (startswith_clash _ (u "## ") _ F eq_refl).
  rewrite F. cbn [andb].
  destruct (span _ rest) as [code_lines after]. reflexivity.
Qed.




Lemma filter_length_le {A} (p q : A -> bool) (l : list A) :
  (forall x, p x = true -> q x = true) ->
  length (filter p l) <= length (filter q l).
Proof.
  intros Hpq. induction l as [|x l IH]; cbn [filter length]; [lia|].
  destruct (p x) eqn:Px.
  - rewrite (Hpq x Px). cbn [length]. lia.
  - destruct (q x); cbn [length]; lia.
Qed.

Lemma diagram_char_count_le_non_whitespace text :
  diagram_char_count text <= non_whitespace_chars text.
Proof.
  apply filter_length_le. intros c H.
  rewrite (density_char_not_space c H). reflexivity.
Qed.

(** C6, as the code has it. When no box pattern matches, a block is a
    diagram exactly when its counted characters exceed 15/100 of its
    characters other than the space and the newline (tabs and other white
    space are part of that total); a block with no such character, and a
    block with no character other than white space, are not diagrams. *)
Theorem density_fallback_decides (text : str)
        (Hno : no_pattern_matches text = true) :
  (is_ascii_diagram text = true
   <-> 15 * total_chars text < 100 * diagram_char_count text)
  /\ (total_chars text = 0 -> is_ascii_diagram text = false)
  /\ (non_whitespace_chars text = 0 -> is_ascii_diagram text = false).
Proof.
  rewrite (is_ascii_diagram_fallback text Hno). unfold density_exceeds.
  split; [apply Nat.ltb_lt|]. split; intros Z; apply Nat.ltb_ge.
  - pose proof (diagram_char_count_le_total text). lia.
  - pose proof (diagram_char_count_le_non_whitespace text). lia.
Qed.

(** [a < b]: no pattern matches, one counted character in three. *)
Lemma density_fallback_decides_witness :
  no_pattern_matches (u "a < b") = true
  /\ (is_ascii_diagram (u "a < b") = true
      <-> 15 * total_chars (u "a < b") < 100 * diagram_char_count (u "a < b")).
Proof.
  split; [vm_compute; reflexivity|].
  apply (density_fallback_decides (u "a < b")). vm_compute. reflexivity.
Defined.

(** C6, as stated, fails on a block with tabs, here [a], six tabs, [<]:
    no pattern matches, one of its two characters that are not white
    space is counted (a ratio of 1/2), and it is not a diagram, since the
    tabs are part of the total the code divides by (1/8). *)
Lemma tabs_count_in_density_total :
  let text := [97; 9; 9; 9; 9; 9; 9; 60]%N in
  no_pattern_matches text = true
  /\ diagram_char_count text = 1
  /\ non_whitespace_chars text = 2
  /\ density_exceeds (diagram_char_count text) (non_whitespace_chars text) = true
  /\ total_chars text = 8
  /\ is_ascii_diagram text = false.
Proof. vm_compute. repeat split. Qed.

(** On every pair of counts up to a hundred characters the exact
    comparison is the one binary64 arithmetic makes. *)
Lemma density_exceeds_as_binary64 :
  forallb (fun total =>
             forallb (fun count =>
                        Bool.eqb (Binary64.density_exceeds count total)
                                 (density_exceeds count total))
                     (seq 0 (S total)))
          (seq 1 100) = true.
Proof. vm_compute. reflexivity. Qed.

(** ** Numbered items *)

Lemma u_ascii_cons c s :
  (N_of_ascii c <? 0x80)%N = true -> u (String c s) = N_of_ascii c :: u s.
Proof.
  intros H. unfold u. cbn [list_ascii_of_string map utf8_decode].
  rewrite H. reflexivity.
Qed.

(** Reading the digits that [str] writes, from an accumulator. *)
Lemma int_of_decimal_digits d : forall acc d',
  acc = DecimalPos.Unsigned.of_lu d' ->
  fold_left int_step (u (NilEmpty.string_of_uint d)) acc
  = DecimalPos.Unsigned.of_lu (Decimal.revapp d d').
Proof.
  induction d as [|d IH|d IH|d IH|d IH|d IH|d IH|d IH|d IH|d IH|d IH];
    intros acc d' E; cbn [NilEmpty.string_of_uint Decimal.revapp];
    [exact E| | | | | | | | | |];
    rewrite u_ascii_cons by reflexivity; cbn [fold_left]; apply IH;
    subst acc; cbn [DecimalPos.Unsigned.of_lu]; unfold int_step;
    match goal with
    | |- context [decimal_value ?c] =>
      let v := eval vm_compute in (decimal_value c) in
      change (decimal_value c) with v
    end; lia.
Qed.

(** [int(str(n)) = n]: [str] writes the decimal form that [int] reads. *)
Lemma int_str_of_int n : int (str_of_int n) = n.
Proof.
  unfold int, str_of_int.
  rewrite (int_of_decimal_digits (N.to_uint n) 0%N Decimal.Nil eq_refl).
  change (Decimal.revapp (N.to_uint n) Decimal.Nil)
    with (Decimal.rev (N.to_uint n)).
  rewrite <- DecimalPos.Unsigned.of_uint_alt.
  apply DecimalN.Unsigned.of_to.
Qed.

(** *** The numbered-item pattern and its groups *)

Lemma greedy_plus_some {A} (p : char -> bool) s : forall (k : str -> str -> option A) x,
  greedy_plus p s k = Some x ->
  exists m rest,
    s = m ++ rest /\ is_empty m = false /\ forallb p m = true
    /\ k m rest = Some x.
Proof.
  induction s as [|c s IH]; intros k x; cbn [greedy_plus]; [discriminate|].
  destruct (p c) eqn:Pc; [|discriminate].
  destruct (greedy_plus p s (fun m rest => k (c :: m) rest)) as [y|] eqn:G.
  - intros E; inversion E; subst y.
    destruct (IH _ _ G) as [m [rest [Es [_ [Hm Hk]]]]]. subst s.
    exists (c :: m), rest. cbn [forallb]. rewrite Pc, Hm. auto.
  - intros Hk. exists [c], s. cbn [forallb]. rewrite Pc. auto.
Qed.

Lemma greedy_plus_none {A} (p : char -> bool) s : forall (k : str -> str -> option A),
  greedy_plus p s k = None ->
  forall m rest,
    s = m ++ rest -> is_empty m = false -> forallb p m = true ->
    k m rest = None.
Proof.
  induction s as [|c s IH]; intros k G m rest Es Hne Hm.
  - destruct m; [discriminate|discriminate].
  - destruct m as [|c' m]; [discriminate|].
    cbn [app] in Es. inversion Es; subst c' s. clear Es.
    cbn [forallb] in Hm. apply andb_true_iff in Hm. destruct Hm as [Pc Hm].
    cbn [greedy_plus] in G. rewrite Pc in G.
    destruct (greedy_plus p (m ++ rest) (fun m rest => k (c :: m) rest))
      as [y|] eqn:G'; [discriminate|].
    destruct m as [|c2 m]; [exact G|].
    apply (IH _ G' (c2 :: m) rest); auto.
Qed.

Lemma lang_plus_class p m :
  lang (Plus (Class p)) m <-> is_empty m = false /\ forallb p m = true.
Proof.
  unfold Plus. split.
  - intros H. apply lang_cat_inv in H. destruct H as [a [b [-> [Ha Hb]]]].
    apply lang_class_inv in Ha. destruct Ha as [c [-> Pc]].
    split; [reflexivity|]. cbn [app forallb]. rewrite Pc. cbn [andb].
    clear c Pc. remember (Star (Class p)) as r eqn:Er. revert Er.
    induction Hb as [| | | | | |a' s t Hs _ Ht IHt]; intros Er;
      try discriminate; [reflexivity|].
    inversion Er; subst a'. apply lang_class_inv in Hs.
    destruct Hs as [c [-> Pc]]. cbn [app forallb].
    rewrite Pc. apply (IHt eq_refl).
  - intros [Hne Hm]. destruct m as [|c m]; [discriminate|].
    cbn [forallb] in Hm. apply andb_true_iff in Hm. destruct Hm as [Pc Hm].
    change (c :: m) with ([c] ++ m). apply lang_cat; [auto|].
    clear Hne Pc. induction m as [|c' m IH]; [auto|].
    cbn [forallb] in Hm. apply andb_true_iff in Hm. destruct Hm as [Pc Hm].
    change (c' :: m) with ([c'] ++ m). apply lang_star_cons; auto.
Qed.

(** The groups that [numbered_match] returns split the line as the
    pattern requires. *)
Lemma numbered_match_some s g1 g2 :
  numbered_match s = Some (g1, g2) -> numbered_shape s g1 g2.
Proof.
  unfold numbered_match. intros H.
  apply greedy_plus_some in H. destruct H as [d [r1 [-> [D1 [D2 H]]]]].
  destruct r1 as [|c r2]; [discriminate|].
  destruct (N.eqb_spec c (ch ".")) as [->|]; [|discriminate].
  apply greedy_plus_some in H. destruct H as [ws [r3 [-> [W1 [W2 H]]]]].
  apply greedy_plus_some in H. destruct H as [t [e [-> [T1 [T2 H]]]]].
  destruct (at_end e) eqn:E; [|discriminate]. inversion H; subst.
  exists ws, e. repeat split; assumption.
Qed.

(** [numbered_match] fails only on lines that the pattern does not
    match. *)
Lemma numbered_match_none s :
  numbered_match s = None -> forall g1 g2, ~ numbered_shape s g1 g2.
Proof.
  unfold numbered_match. intros H g1 g2 [ws [e [-> [[D1 D2] [[W1 W2] [[T1 T2] E]]]]]].
  pose proof (greedy_plus_none _ _ _ H g1 _ eq_refl D1 D2) as H1.
  cbn beta iota in H1. rewrite N.eqb_refl in H1.
  pose proof (greedy_plus_none _ _ _ H1 ws _ eq_refl W1 W2) as H2.
  cbn beta in H2.
  pose proof (greedy_plus_none _ _ _ H2 g2 _ eq_refl T1 T2) as H3.
  cbn beta in H3. rewrite E in H3. discriminate.
Qed.

Lemma lang_at_end e : lang (Opt (Lit NL)) e <-> at_end e = true.
Proof.
  unfold Opt, Lit. split.
  - intros H. apply lang_alt_inv in H. destruct H as [H|H].
    + apply lang_eps_inv in H. subst. reflexivity.
    + apply lang_class_inv in H. destruct H as [c [-> Pc]].
      cbn [at_end]. rewrite N.eqb_sym. exact Pc.
  - destruct e as [|c [|c' e]]; cbn [at_end]; try discriminate.
    + intros _. apply lang_alt_l. auto.
    + intros H. apply lang_alt_r. apply lang_class.
      rewrite N.eqb_sym. exact H.
Qed.

(** [numbered_match] succeeds exactly on the lines that
    [^\d+\.\s+.+$] matches. *)
Lemma numbered_match_decides s :
  match_to_end numbered_item s = true <-> numbered_match s <> None.
Proof.
  unfold match_to_end. rewrite fullmatch_lang. split.
  - intros H Hn.
    apply lang_cat_inv in H. destruct H as [m [e [-> [Hm He]]]].
    unfold numbered_item, Seq in Hm. cbn [fold_right] in Hm.
    apply lang_cat_inv in Hm. destruct Hm as [g1 [r1 [-> [H1 Hm]]]].
    apply lang_cat_inv in Hm. destruct Hm as [dot [r2 [-> [Hd Hm]]]].
    apply lang_cat_inv in Hm. destruct Hm as [ws [r3 [-> [Hw Hm]]]].
    apply lang_cat_inv in Hm. destruct Hm as [g2 [r4 [-> [H2 Hm]]]].
    apply lang_eps_inv in Hm. subst r4.
    apply lang_class_inv in Hd. destruct Hd as [c [-> Pc]].
    apply N.eqb_eq in Pc. subst c.
    apply (numbered_match_none _ Hn g1 g2). exists ws, e.
    rewrite app_nil_r, <- !app_assoc. cbn [app].
    split; [reflexivity|].
    split; [apply lang_plus_class; exact H1|].
    split; [apply lang_plus_class; exact Hw|].
    split; [apply lang_plus_class; exact H2|].
    apply lang_at_end. exact He.
  - intros Hn. destruct (numbered_match s) as [[g1 g2]|] eqn:M; [|congruence].
    apply numbered_match_some in M.
    destruct M as [ws [e [-> [D [W [T E]]]]]].
    replace (g1 ++ ch "." :: ws ++ g2 ++ e)
      with ((g1 ++ ([ch "."] ++ (ws ++ (g2 ++ [])))) ++ e)
      by (rewrite app_nil_r, <- !app_assoc; reflexivity).
    apply lang_cat; [|apply lang_at_end; exact E].
    unfold numbered_item, Seq. cbn [fold_right].
    apply lang_cat; [apply lang_plus_class; exact D|].
    apply lang_cat; [apply lang_class; apply N.eqb_refl|].
    apply lang_cat; [apply lang_plus_class; exact W|].
    apply lang_cat; [apply lang_plus_class; exact T|]. auto.
Qed.

(** [int] drops leading zeros. *)
Lemma int_leading_zeros k digits :
  int (repeat (ch "0") k ++ digits) = int digits.
Proof.
  unfold int. induction k as [|k IH]; cbn [repeat app]; [reflexivity|].
  cbn [fold_left]. change (int_step 0 (ch "0")) with 0%N. exact IH.
Qed.

(** C10. The line [007. step] parses to the numbered item with text
    [step] and number 7 and is rendered as the paragraph [7. step]; in
    general [int] drops leading zeros, so that zeros written before the
    decimal form of a number are gone when the number is written again,
    and [add_numbered_item] appends the paragraph made of the decimal
    form of the number, a dot and a space, and the text. *)
Theorem numbered_item_leading_zeros_dropped :
  parse_rfc_content (u "007. step") = Some [Numbered (u "step") 7%N]
  /\ (forall ascii_diagram_to_image,
        convert_rfc_to_docx ascii_diagram_to_image (u "007. step") None
        = Some (Returned
                  [DocParagraph [{| run_text := u "7. step";
                                    run_bold := false |}]]))
  /\ (forall k digits, int (repeat (ch "0") k ++ digits) = int digits)
  /\ (forall k number,
        str_of_int (int (repeat (ch "0") k ++ str_of_int number))
        = str_of_int number)
  /\ (forall doc text number,
        add_numbered_item doc text number
        = doc ++ [DocParagraph
                    [{| run_text := str_of_int number ++ u ". " ++ text;
                        run_bold := false |}]]).
Proof.
  split; [vm_compute; reflexivity|].
  split; [intros r; vm_compute; reflexivity|].
  split; [apply int_leading_zeros|].
  split; [|reflexivity].
  intros k number. rewrite int_leading_zeros, int_str_of_int. reflexivity.
Qed.

(** ** The renderer *)

Lemma set_item_completes {A} (l : list A) : forall i x,
  match set_item l i x with
  | Returned l' => i < length l /\ length l' = length l
  | Raised _ => length l <= i
  end.
Proof.
  induction l as [|y l IH]; intros i x; cbn [set_item length].
  - destruct i; lia.
  - destruct i as [|i]; [cbn [length]; lia|].
    specialize (IH i x). destruct (set_item l i x); cbn [bind length]; lia.
Qed.




Section RendererProperties.

Variable ascii_diagram_to_image : str -> option png.
Variable title : option str.





End RendererProperties.



(** ** The metadata buffer *)

Lemma add_table_appends doc headers rows doc' :
  add_table doc headers rows = Returned doc' ->
  exists cells, doc' = doc ++ [DocTable cells].
Proof.
  unfold add_table.
  destruct (fill_cells _ 0 headers) as [e|header_cells]; [discriminate|].
  cbn [bind]. destruct (fill_rows _ rows) as [e|filled]; [discriminate|].
  cbn [bind]. intros E; inversion E. eauto.
Qed.

Section MetadataBuffer.

Variable ascii_diagram_to_image : str -> option png.
Variable title : option str.

(** An element other than a level-1 heading appends plain blocks and
    leaves the buffer alone, or is buffered. *)
Lemma render_element_buffers doc metadata_items elem doc' metadata_items' :
  is_h1 elem = false ->
  render_element ascii_diagram_to_image title doc metadata_items elem
  = Returned (doc', metadata_items') ->
  metadata_items' = metadata_items ++ metadata_of [elem]
  /\ exists added, doc' = doc ++ added /\ forallb plain_block added = true.
Proof.
  intros Hh.
  destruct elem; try discriminate; cbn [render_element metadata_of flat_map app];
    rewrite ?app_nil_r;
    try (intros E; inversion E; subst; split; [reflexivity|];
         eexists; split; [reflexivity|reflexivity]).
  - destruct (ascii_diagram_to_image code_content);
      intros E; inversion E; subst; (split; [reflexivity|]);
      eexists; split; reflexivity.
  - destruct (add_table doc headers rows) as [e|d] eqn:T; [discriminate|].
    cbn [bind]. intros E; inversion E; subst. split; [reflexivity|].
    destruct (add_table_appends _ _ _ _ T) as [cells ->].
    exists [DocTable cells; DocParagraph []].
    rewrite <- app_assoc. split; reflexivity.
  - intros E; inversion E; subst. split; [reflexivity|].
    exists []. rewrite app_nil_r. split; reflexivity.
Qed.




End MetadataBuffer.



Lemma metadata_paragraph_is_block metadata_items :
  is_empty metadata_items = false ->
  is_metadata_block (metadata_paragraph metadata_items) = true.
Proof.
  destruct metadata_items as [|[key value] rest]; [discriminate|reflexivity].
Qed.



Section MetadataFlush.

Variable ascii_diagram_to_image : str -> option png.
Variable title : option str.



End MetadataFlush.






(** ** Top-level headings *)

(** Inside a fenced block every line up to the closing fence is passed
    over. *)
Lemma top_level_hash_lines_in_code rest :
  top_level_hash_lines true rest
  = top_level_hash_lines false
      (tl (snd (span (fun l => negb (is_fence l)) rest))).
Proof.
  induction rest as [|l rest IH]; [reflexivity|].
  cbn [span top_level_hash_lines].
  destruct (is_fence l); cbn [negb snd tl andb]; [reflexivity|].
  destruct (span _ rest) as [a b]. exact IH.
Qed.

(** Lines that are neither fences nor hash lines are passed over. *)
Lemma top_level_hash_lines_skip (p : str -> bool) lines :
  (forall l, p l = true -> is_fence l = false /\ is_hash_line l = false) ->
  top_level_hash_lines false (snd (span p lines))
  = top_level_hash_lines false lines.
Proof.
  intros Hp. induction lines as [|l lines IH]; [reflexivity|].
  cbn [span]. destruct (p l) eqn:Pl; [|reflexivity].
  destruct (Hp l Pl) as [F H]. cbn [top_level_hash_lines].
  rewrite F, H. cbn [negb andb].
  destruct (span p lines) as [a b]. exact IH.
Qed.

Lemma top_level_hash_lines_other line rest :
  is_fence line = false -> is_hash_line line = false ->
  top_level_hash_lines false (line :: rest) = top_level_hash_lines false rest.
Proof.
  intros F H. cbn [top_level_hash_lines]. rewrite F, H. reflexivity.
Qed.

Lemma para_break_false next_line :
  para_break (strip next_line) = false ->
  is_fence next_line = false /\ is_hash_line next_line = false.
Proof.
  unfold para_break, is_fence, is_hash_line. intros H.
  repeat (apply orb_false_iff in H; destruct H as [H ?]).
  split; [assumption|].
  destruct (startswith (u "# ") (strip next_line)) eqn:E; [|reflexivity].
  apply (startswith_prefix (u "#") (u " ")) in E. congruence.
Qed.

Lemma parse_paragraph_cases stripped rest els :
  (exists e, snd (parse_paragraph stripped rest els) = els ++ [e]
             /\ is_title e = false /\ is_h1 e = false)
  /\ top_level_hash_lines false (fst (parse_paragraph stripped rest els))
     = top_level_hash_lines false rest.
Proof.
  unfold parse_paragraph.
  pose proof (top_level_hash_lines_skip
                (fun l => negb (para_break (strip l))) rest) as S.
  destruct (span _ rest) as [more after]. cbn [fst snd] in *. split.
  - eexists. split; [reflexivity|]. split; reflexivity.
  - apply S. intros l Hl. apply negb_true_iff in Hl.
    apply para_break_false. exact Hl.
Qed.

(** What one iteration does with the line under the cursor: a hash line
    becomes the title when no element precedes it and a level-1 heading
    otherwise; any other line yields no title and no level-1 heading, and
    the lines it consumes hold no top-level hash line. *)
Lemma parse_step_cases line rest els :
  (is_hash_line line = true
   /\ parse_step line rest els
      = (rest, els ++ [if is_empty els then Title (heading_text line)
                       else H1 (heading_text line)]))
  \/ (is_hash_line line = false
      /\ (snd (parse_step line rest els) = els
          \/ exists e, snd (parse_step line rest els) = els ++ [e]
                       /\ is_title e = false /\ is_h1 e = false)
      /\ top_level_hash_lines false (fst (parse_step line rest els))
         = top_level_hash_lines false (line :: rest)).
Proof.
  unfold parse_step, is_hash_line, heading_text.
  destruct (is_empty (strip line)) eqn:E0.
  { right. destruct (strip line) eqn:Es; [|discriminate].
    split; [reflexivity|]. split; [left; reflexivity|].
    cbn [fst]. symmetry. apply top_level_hash_lines_other;
      unfold is_fence, is_hash_line; rewrite Es; reflexivity. }
  destruct (startswith (u "# ") (strip line)) eqn:Eh.
  { left. split; [reflexivity|].
    destruct (is_empty els); cbn [andb]; [reflexivity|].
    rewrite (startswith_clash _ (u "### ") _ Eh eq_refl).
    rewrite (startswith_clash _ (u "## ") _ Eh eq_refl).
    reflexivity. }
  right. split; [reflexivity|]. cbn [andb].
  destruct (startswith (u "### ") (strip line)) eqn:E3.
  { split; [right; eexists; repeat split|].
    cbn [fst]. symmetry. apply top_level_hash_lines_other; [|exact Eh].
    apply (startswith_clash _ (u "```") _ E3 eq_refl). }
  destruct (startswith (u "## ") (strip line)) eqn:E2.
  { split; [right; eexists; repeat split|].
    cbn [fst]. symmetry. apply top_level_hash_lines_other; [|exact Eh].
    apply (startswith_clash _ (u "```") _ E2 eq_refl). }
  destruct (startswith (u "```") (strip line)) eqn:Ef.
  { destruct (span (fun l => negb (is_fence l)) rest) as [code_lines after] eqn:Sp.
    split.
    - right. cbn [snd]. eexists. split; [reflexivity|].
      destruct (is_ascii_diagram _); split; reflexivity.
    - assert (F : is_fence line = true) by exact Ef.
      cbn [fst top_level_hash_lines]. rewrite F.
      cbn [negb]. rewrite top_level_hash_lines_in_code, Sp. reflexivity. }
  assert (Skip : top_level_hash_lines false (line :: rest)
                 = top_level_hash_lines false rest)
    by (apply top_level_hash_lines_other; assumption).
  destruct (startswith (u "|") (strip line)) eqn:Et.
  { pose proof (top_level_hash_lines_skip is_table_line (line :: rest)) as S.
    destruct (span is_table_line (line :: rest)) as [table_lines after].
    destruct (parse_markdown_table table_lines) as [headers rows].
    cbn [fst snd] in *. split.
    - destruct (is_empty headers); [left; reflexivity|].
      right. eexists. repeat split.
    - apply S. intros l Hl. unfold is_table_line in Hl.
      split; [apply (startswith_clash _ (u "```") _ Hl eq_refl)
             |apply (startswith_clash _ (u "# ") _ Hl eq_refl)]. }
  destruct (startswith (u "- ") (strip line) || startswith (u "* ") (strip line)).
  { split; [right; eexists; repeat split|]. cbn [fst]. symmetry. exact Skip. }
  destruct (numbered_match (strip line)) as [[g1 g2]|].
  { split; [right; eexists; repeat split|]. cbn [fst]. symmetry. exact Skip. }
  pose proof (parse_paragraph_cases (strip line) rest els) as [Pe Ph].
  destruct (char_in (ch ":") (strip line) && (length els <=? 2)).
  - destruct (partition (ch ":") (strip line)) as [key value].
    destruct (str_in (strip key) metadata_keys).
    + split; [right; eexists; repeat split|]. cbn [fst]. symmetry. exact Skip.
    + split; [right; exact Pe|]. rewrite Ph. symmetry. exact Skip.
  - split; [right; exact Pe|]. rewrite Ph. symmetry. exact Skip.
Qed.

Lemma top_heading_texts_app a b :
  top_heading_texts (a ++ b) = top_heading_texts a ++ top_heading_texts b.
Proof. apply flat_map_app. Qed.

Lemma hash_line_not_fence line :
  is_hash_line line = true -> is_fence line = false.
Proof.
  unfold is_hash_line, is_fence. intros H.
  apply (startswith_clash _ (u "```") _ H eq_refl).
Qed.

(** The title and the level-1 headings are the top-level hash lines, in
    their order. *)
Lemma parse_loop_headings fuel : forall lines els res,
  parse_loop fuel lines els = Some res ->
  top_heading_texts res
  = top_heading_texts els
    ++ map heading_text (top_level_hash_lines false lines).
Proof.
  induction fuel as [|fuel IH]; intros lines els res.
  - destruct lines; [|discriminate]. cbn [parse_loop]. intros E; inversion E.
    cbn. rewrite app_nil_r. reflexivity.
  - destruct lines as [|line rest].
    + cbn [parse_loop]. intros E; inversion E. cbn. rewrite app_nil_r.
      reflexivity.
    + rewrite parse_loop_cons. intros L. apply IH in L. rewrite L. clear L.
      destruct (parse_step_cases line rest els) as [[Hh E]|[Hh [Hs Ht]]].
      * rewrite E. cbn [fst snd top_level_hash_lines].
        rewrite (hash_line_not_fence line Hh), Hh. cbn [negb andb map].
        rewrite top_heading_texts_app, <- app_assoc.
        destruct (is_empty els); reflexivity.
      * rewrite Ht. f_equal.
        destruct Hs as [->|[e [-> [T1 T2]]]]; [reflexivity|].
        rewrite top_heading_texts_app.
        destruct e; try discriminate; apply app_nil_r.
Qed.

(** The elements only grow. *)
Lemma parse_loop_extends fuel : forall lines els res,
  parse_loop fuel lines els = Some res -> exists more, res = els ++ more.
Proof.
  induction fuel as [|fuel IH]; intros lines els res.
  - destruct lines; [|discriminate]. cbn [parse_loop]. intros E; inversion E.
    exists []. symmetry. apply app_nil_r.
  - destruct lines as [|line rest].
    + cbn [parse_loop]. intros E; inversion E.
      exists []. symmetry. apply app_nil_r.
    + rewrite parse_loop_cons. intros L. apply IH in L.
      destruct L as [more ->].
      destruct (parse_step_cases line rest els) as [[Hh E]|[Hh [Hs Ht]]].
      * rewrite E. cbn [snd]. rewrite <- app_assoc. eauto.
      * destruct Hs as [->|[e [-> _]]]; [eauto|].
        rewrite <- app_assoc. eauto.
Qed.

(** A title is never appended after another element. *)
Lemma parse_loop_title_first fuel : forall lines els res,
  parse_loop fuel lines els = Some res ->
  forallb (fun e => negb (is_title e)) (tl els) = true ->
  forallb (fun e => negb (is_title e)) (tl res) = true.
Proof.
  induction fuel as [|fuel IH]; intros lines els res.
  - destruct lines; [|discriminate]. cbn [parse_loop]. intros E; inversion E.
    auto.
  - destruct lines as [|line rest].
    + cbn [parse_loop]. intros E; inversion E. auto.
    + rewrite parse_loop_cons. intros L Inv. apply (IH _ _ _ L). clear L.
      destruct (parse_step_cases line rest els) as [[Hh E]|[Hh [Hs Ht]]].
      * rewrite E. cbn [snd]. destruct els as [|e0 els]; [reflexivity|].
        cbn [is_empty app tl] in *. rewrite forallb_app, Inv. reflexivity.
      * destruct Hs as [->|[e [-> [T1 T2]]]]; [exact Inv|].
        destruct els as [|e0 els]; [reflexivity|].
        cbn [app tl] in *. rewrite forallb_app, Inv. cbn [forallb].
        rewrite T1. reflexivity.
Qed.

Lemma parse_step_blank line rest els :
  is_empty (strip line) = true -> parse_step line rest els = (rest, els).
Proof. unfold parse_step. intros ->. reflexivity. Qed.

Lemma parse_loop_skips_blanks blanks : forall fuel line rest els res,
  forallb (fun l => is_empty (strip l)) blanks = true ->
  parse_loop fuel (blanks ++ line :: rest) els = Some res ->
  exists fuel', parse_loop fuel' (line :: rest) els = Some res.
Proof.
  induction blanks as [|b blanks IH]; intros fuel line rest els res Hb L.
  - exists fuel. exact L.
  - cbn [forallb] in Hb. apply andb_true_iff in Hb. destruct Hb as [B1 B2].
    destruct fuel as [|fuel]; [discriminate|].
    cbn [app] in L. rewrite parse_loop_cons, (parse_step_blank _ _ _ B1) in L.
    apply (IH _ _ _ _ _ B2 L).
Qed.

Lemma no_title_top_heading_texts elements :
  forallb (fun e => negb (is_title e)) elements = true ->
  top_heading_texts elements = h1_texts elements.
Proof.
  induction elements as [|e elements IH]; [reflexivity|].
  cbn [forallb]. intros H. apply andb_true_iff in H. destruct H as [H1 H2].
  change (e :: elements) with ([e] ++ elements).
  unfold top_heading_texts, h1_texts in *.
  rewrite !flat_map_app, (IH H2). f_equal.
  destruct e; try reflexivity. discriminate.
Qed.

(** C8, as the code has it. A line whose stripped form starts with [# ]
    and that the loop reaches becomes the title exactly when no element
    has been produced yet, and a level-1 heading otherwise; when the first
    non-blank line of the input is such a line, the title made of the
    content after the marker is the first element; and a title is never
    an element other than the first. *)
Theorem title_when_no_element_yet :
  (forall line rest elements,
      is_hash_line line = true ->
      parse_step line rest elements
      = (rest,
         elements ++ [if is_empty elements then Title (heading_text line)
                      else H1 (heading_text line)]))
  /\ (forall text blanks line rest,
        split NL text = blanks ++ line :: rest ->
        forallb (fun l => is_empty (strip l)) blanks = true ->
        is_hash_line line = true ->
        exists more,
          parse_rfc_content text = Some (Title (heading_text line) :: more))
  /\ (forall text elements,
        parse_rfc_content text = Some elements ->
        forallb (fun e => negb (is_title e)) (tl elements) = true).
Proof.
  split; [|split].
  - intros line rest elements Hh.
    destruct (parse_step_cases line rest elements) as [[_ E]|[Hn _]];
      [exact E|congruence].
  - intros text blanks line rest Hs Hb Hh.
    destruct (parse_loop_total (length (split NL text)) (split NL text) []
                               (le_n _)) as [res [P _]].
    fold (parse_rfc_content text) in P.
    rewrite P. unfold parse_rfc_content in P. rewrite Hs in P.
    destruct (parse_loop_skips_blanks _ _ _ _ _ _ Hb P) as [fuel L].
    destruct fuel as [|fuel]; [discriminate|].
    rewrite parse_loop_cons in L.
    destruct (parse_step_cases line rest []) as [[_ E]|[Hn _]];
      [|congruence].
    rewrite E in L. cbn [fst snd is_empty app] in L.
    destruct (parse_loop_extends _ _ _ _ L) as [more ->].
    exists more. reflexivity.
  - intros text elements P. unfold parse_rfc_content in P.
    apply (parse_loop_title_first _ _ _ _ P). reflexivity.
Qed.

(** Two blank lines before the first hash line. *)
Lemma title_when_no_element_yet_witness :
  exists more,
    parse_rfc_content (join [NL] [u ""; u "  "; u "# Plan"; u "# Scope"])
    = Some (Title (u "Plan") :: more).
Proof.
  apply (proj1 (proj2 title_when_no_element_yet)
               (join [NL] [u ""; u "  "; u "# Plan"; u "# Scope"])
               [u ""; u "  "] (u "# Plan") [u "# Scope"]);
    vm_compute; reflexivity.
Defined.

(** C8, as stated, fails on [|], [# Foo]: the table region produces no
    element, so the second line, which is not the first non-blank line of
    the input, is emitted as the title. *)
Lemma title_after_a_region_without_element :
  is_empty (strip (u "|")) = false
  /\ parse_rfc_content (join [NL] [u "|"; u "# Foo"]) = Some [Title (u "Foo")]
  /\ parse_rfc_content (join [NL] [u "| note"; u "# Foo"; u "# Bar"])
     = Some [Title (u "Foo"); H1 (u "Bar")].
Proof. vm_compute. repeat split. Qed.

Lemma h1_block_texts_app a b :
  h1_block_texts (a ++ b) = h1_block_texts a ++ h1_block_texts b.
Proof. apply flat_map_app. Qed.

Lemma plain_h1_block_texts added :
  forallb plain_block added = true -> h1_block_texts added = [].
Proof.
  induction added as [|b added IH]; [reflexivity|].
  cbn [forallb]. intros H. apply andb_true_iff in H. destruct H as [H1 H2].
  change (b :: added) with ([b] ++ added).
  rewrite h1_block_texts_app, (IH H2), app_nil_r.
  unfold plain_block in H1. apply andb_true_iff in H1. destruct H1 as [_ H1].
  apply negb_true_iff in H1.
  destruct b as [text level c| | | | |]; try reflexivity.
  destruct level as [|[|level]]; try reflexivity. discriminate.
Qed.

Lemma h1_block_texts_length doc :
  length (h1_block_texts doc) = length (filter is_h1_block doc).
Proof.
  induction doc as [|b doc IH]; [reflexivity|].
  change (b :: doc) with ([b] ++ doc).
  rewrite h1_block_texts_app, filter_app, !length_app, IH. f_equal.
  destruct b as [text level c| | | | |]; try reflexivity.
  destruct level as [|[|level]]; reflexivity.
Qed.

Section Level1Headings.

Variable ascii_diagram_to_image : str -> option png.
Variable title : option str.

Lemma render_element_h1 doc metadata_items elem doc' metadata_items' :
  render_element ascii_diagram_to_image title doc metadata_items elem
  = Returned (doc', metadata_items') ->
  h1_block_texts doc' = h1_block_texts doc ++ h1_texts [elem].
Proof.
  destruct (is_h1 elem) eqn:Eh.
  - destruct elem; try discriminate. cbn [render_element].
    destruct (is_empty metadata_items); intros E; inversion E; subst;
      unfold add_heading; rewrite !h1_block_texts_app; cbn;
      rewrite ?app_nil_r; reflexivity.
  - intros E.
    destruct (render_element_buffers _ _ _ _ _ _ _ Eh E) as [_ [a [-> P]]].
    rewrite h1_block_texts_app, (plain_h1_block_texts a P).
    destruct elem; try reflexivity. discriminate.
Qed.

Lemma render_loop_h1 elements : forall doc metadata_items doc' metadata_items',
  render_loop ascii_diagram_to_image title doc metadata_items elements
  = Returned (doc', metadata_items') ->
  h1_block_texts doc' = h1_block_texts doc ++ h1_texts elements.
Proof.
  induction elements as [|elem elements IH];
    intros doc metadata_items doc' metadata_items'.
  - cbn [render_loop]. intros E; inversion E. cbn. rewrite app_nil_r.
    reflexivity.
  - cbn [render_loop].
    destruct (render_element _ _ doc metadata_items elem) as [e|[d m]] eqn:E;
      [discriminate|].
    cbn [bind fst snd]. intros L.
    rewrite (IH _ _ _ _ L), (render_element_h1 _ _ _ _ _ E), <- app_assoc.
    f_equal. change (elem :: elements) with ([elem] ++ elements).
    unfold h1_texts. rewrite flat_map_app. reflexivity.
Qed.

(** One level-1 heading per [H1] element, in order. *)
Lemma render_h1 elements doc :
  render ascii_diagram_to_image title elements = Returned doc ->
  h1_block_texts doc = h1_texts elements.
Proof.
  unfold render.
  destruct (render_loop _ _ [] [] elements) as [e|[d m]] eqn:L; [discriminate|].
  cbn [bind]. intros E; inversion E; subst doc.
  pose proof (render_loop_h1 _ _ _ _ _ L) as H. cbn [h1_block_texts flat_map app] in H.
  destruct (is_empty m); [exact H|].
  rewrite h1_block_texts_app, H. cbn. apply app_nil_r.
Qed.

End Level1Headings.

(** C7, as the code has it. When a conversion returns, the level-1
    headings of the document are, in order, the level-1 heading elements;
    the title and these elements together are, in order, the lines whose
    stripped form starts with [# ] and that stand outside fenced blocks;
    so the document has one level-1 heading for each such line, in their
    order, except the first one when it became the title (no element
    before it): as many level-1 headings as such lines, or one less. *)
Theorem level1_headings_follow_hash_lines
        (ascii_diagram_to_image : str -> option png) (title : option str)
        (text : str) (doc : document)
        (Hdoc : convert_rfc_to_docx ascii_diagram_to_image text title
                = Some (Returned doc)) :
  exists elements,
    parse_rfc_content text = Some elements
    /\ h1_block_texts doc = h1_texts elements
    /\ top_heading_texts elements
       = map heading_text (top_level_hash_lines false (split NL text))
    /\ h1_block_texts doc
       = match elements with
         | Title _ :: _ =>
           tl (map heading_text (top_level_hash_lines false (split NL text)))
         | _ => map heading_text (top_level_hash_lines false (split NL text))
         end
    /\ length (filter is_h1_block doc)
       = length (top_level_hash_lines false (split NL text))
         - match elements with Title _ :: _ => 1 | _ => 0 end.
Proof.
  unfold convert_rfc_to_docx in Hdoc.
  destruct (parse_rfc_content text) as [elements|] eqn:P; [|discriminate].
  inversion Hdoc as [Hr]. clear Hdoc. exists elements.
  pose proof (render_h1 _ _ _ _ Hr) as R.
  unfold parse_rfc_content in P.
  pose proof (parse_loop_headings _ _ _ _ P) as Hh. cbn [top_heading_texts flat_map app] in Hh.
  pose proof (parse_loop_title_first _ _ _ _ P eq_refl) as Ht.
  split; [reflexivity|]. split; [exact R|]. split; [exact Hh|].
  assert (Order :
            h1_block_texts doc
            = match elements with
              | Title _ :: _ =>
                tl (map heading_text
                        (top_level_hash_lines false (split NL text)))
              | _ => map heading_text
                         (top_level_hash_lines false (split NL text))
              end).
  { rewrite R, <- Hh.
    destruct elements as [|e elements]; [reflexivity|]. cbn [tl] in Ht.
    change (e :: elements) with ([e] ++ elements).
    rewrite top_heading_texts_app, (no_title_top_heading_texts _ Ht).
    unfold h1_texts. rewrite flat_map_app. fold (h1_texts elements).
    destruct e; reflexivity. }
  split; [exact Order|].
  rewrite <- h1_block_texts_length, Order.
  destruct elements as [|e elements];
    [rewrite length_map; lia|].
  destruct e; rewrite ?length_map; try lia.
  destruct (map heading_text (top_level_hash_lines false (split NL text)))
    as [|t l] eqn:M.
  - apply (f_equal (@length _)) in M. rewrite length_map in M.
    cbn [tl length] in *. lia.
  - apply (f_equal (@length _)) in M. rewrite length_map in M.
    cbn [tl length] in *. lia.
Qed.

(** A title, two level-1 headings and a hash line inside a fenced block. *)
Lemma level1_headings_follow_hash_lines_witness :
  exists elements,
    parse_rfc_content
      (join [NL] [u "# T"; u "# A"; u "```"; u "# c"; u "```"; u "# B"])
    = Some elements
    /\ h1_block_texts
         [DocHeading (u "T") 0 true; DocHeading (u "A") 1 false;
          DocCodeBlock (u "# c"); DocHeading (u "B") 1 false]
       = h1_texts elements.
Proof.
  destruct (level1_headings_follow_hash_lines (fun _ => None) None
              (join [NL] [u "# T"; u "# A"; u "```"; u "# c"; u "```"; u "# B"])
              [DocHeading (u "T") 0 true; DocHeading (u "A") 1 false;
               DocCodeBlock (u "# c"); DocHeading (u "B") 1 false])
    as [elements [P [R _]]]; [vm_compute; reflexivity|].
  exists elements. split; assumption.
Defined.

(** C7, as stated, fails on [# A] alone and on a hash line inside a
    fenced block: one line starts with [# ] in each input, and the
    document has no level-1 heading (the first is the level-0 title, the
    second is text of the code block). *)
Lemma hash_line_without_level1_heading :
  length (filter is_hash_line (split NL (u "# A"))) = 1
  /\ convert_rfc_to_docx (fun _ => None) (u "# A") None
     = Some (Returned [DocHeading (u "A") 0 true])
  /\ length (filter is_hash_line
               (split NL (join [NL] [u "x"; u "```"; u "# c"; u "```"]))) = 1
  /\ convert_rfc_to_docx (fun _ => None)
       (join [NL] [u "x"; u "```"; u "# c"; u "```"]) None
     = Some (Returned [DocParagraph [{| run_text := u "x"; run_bold := false |}];
                       DocCodeBlock (u "# c")]).
Proof. vm_compute. repeat split. Qed.

(** * Further properties *)

(** ** Stripping *)

Lemma dropwhile_fixed p s :
  dropwhile p s = s <-> match s with [] => True | c :: _ => p c = false end.
Proof.
  destruct s as [|c s]; cbn [dropwhile]; [tauto|].
  destruct (p c) eqn:Pc; split; intros H; try reflexivity; try discriminate.
  exfalso.
  assert (L : forall t, length (dropwhile p t) <= length t).
  { induction t as [|x t IH]; cbn [dropwhile length]; [lia|].
    destruct (p x); cbn [length]; lia. }
  specialize (L s). rewrite H in L. cbn [length] in L. lia.
Qed.

Lemma dropwhile_head p s :
  match dropwhile p s with [] => True | c :: _ => p c = false end.
Proof.
  induction s as [|c s IH]; cbn [dropwhile]; [exact I|].
  destruct (p c) eqn:Pc; [exact IH|exact Pc].
Qed.

Lemma dropwhile_idempotent p s : dropwhile p (dropwhile p s) = dropwhile p s.
Proof. apply dropwhile_fixed, dropwhile_head. Qed.

Lemma dropwhile_snoc p s c :
  p c = false -> dropwhile p (s ++ [c]) = dropwhile p s ++ [c].
Proof.
  intros Pc. induction s as [|x s IH]; cbn [app dropwhile].
  - rewrite Pc. reflexivity.
  - destruct (p x); [exact IH|reflexivity].
Qed.

Lemma dropwhile_incl p s x : In x (dropwhile p s) -> In x s.
Proof.
  induction s as [|c s IH]; cbn [dropwhile]; [tauto|].
  destruct (p c); [right; auto|auto].
Qed.

Lemma dropwhile_nil p s : dropwhile p s = [] <-> forallb p s = true.
Proof.
  induction s as [|c s IH]; cbn [dropwhile forallb]; [tauto|].
  destruct (p c); cbn [andb]; [exact IH|]. split; discriminate.
Qed.

Lemma rstrip_idempotent s : rstrip (rstrip s) = rstrip s.
Proof.
  unfold rstrip. rewrite rev_involutive, dropwhile_idempotent. reflexivity.
Qed.

(** [rstrip] keeps a first character that is not white space. *)
Lemma lstrip_rstrip s : lstrip s = s -> lstrip (rstrip s) = rstrip s.
Proof.
  unfold lstrip, rstrip. intros H. apply dropwhile_fixed in H.
  apply dropwhile_fixed. destruct s as [|c s]; [exact I|].
  cbn [rev]. rewrite (dropwhile_snoc _ _ _ H), rev_app_distr. exact H.
Qed.

(** [s.strip().strip() == s.strip()] *)
Lemma strip_idempotent s : strip (strip s) = strip s.
Proof.
  unfold strip.
  rewrite (lstrip_rstrip (lstrip s)) by apply dropwhile_idempotent.
  apply rstrip_idempotent.
Qed.

Lemma strip_incl s x : In x (strip s) -> In x s.
Proof.
  unfold strip, rstrip, lstrip. intros H.
  apply in_rev, dropwhile_incl, in_rev, dropwhile_incl in H. exact H.
Qed.

Lemma strip_nil s : strip s = [] <-> forallb isspace s = true.
Proof.
  unfold strip, rstrip, lstrip. split.
  - intros H. apply (f_equal (@rev _)) in H. rewrite rev_involutive in H.
    cbn [rev] in H. apply dropwhile_nil in H.
    destruct (dropwhile isspace s) as [|c t] eqn:D;
      [apply dropwhile_nil; exact D|].
    pose proof (dropwhile_head isspace s) as Hd. rewrite D in Hd.
    rewrite forallb_forall in H. rewrite (H c) in Hd; [discriminate|].
    apply -> in_rev. left. reflexivity.
  - intros H. apply dropwhile_nil in H. rewrite H. reflexivity.
Qed.

(** ** The table parser, further *)

Lemma is_separator_nonempty cells :
  is_separator cells = false -> is_empty cells = false.
Proof. destruct cells; [discriminate|reflexivity]. Qed.

Lemma table_rows_cons line lines :
  table_rows (line :: lines)
  = if negb (startswith (u "|") (strip line)) then table_rows lines
    else if is_separator (cells_of (strip line)) then table_rows lines
    else cells_of (strip line) :: table_rows lines.
Proof.
  unfold table_rows. cbn [filter]. unfold is_table_line at 1.
  destruct (startswith (u "|") (strip line)); cbn [negb map filter];
    [|reflexivity].
  destruct (is_separator (cells_of (strip line))); reflexivity.
Qed.

(** Once the headers are set, every other row is appended. *)
Lemma parse_markdown_table_loop_rows lines : forall headers rows,
  is_empty headers = false ->
  parse_markdown_table_loop lines headers rows
  = (headers, rows ++ table_rows lines).
Proof.
  induction lines as [|line lines IH]; intros headers rows Hh.
  - cbn. rewrite app_nil_r. reflexivity.
  - rewrite parse_markdown_table_loop_cons, table_rows_cons.
    destruct (negb (startswith (u "|") (strip line))); [apply IH, Hh|].
    destruct (is_separator (cells_of (strip line))); [apply IH, Hh|].
    rewrite Hh, (IH _ _ Hh), <- app_assoc. reflexivity.
Qed.

(** X1. [parse_markdown_table] returns the first row that is not a
    separator row as the headers and the other such rows, in the order
    of the lines, as the rows; without such a row both are empty. *)
Theorem parse_markdown_table_first_and_rest (lines : list str) :
  parse_markdown_table lines
  = match table_rows lines with
    | [] => ([], [])
    | headers :: rows => (headers, rows)
    end.
Proof.
  unfold parse_markdown_table.
  induction lines as [|line lines IH]; [reflexivity|].
  rewrite parse_markdown_table_loop_cons, table_rows_cons.
  destruct (negb (startswith (u "|") (strip line))); [exact IH|].
  destruct (is_separator (cells_of (strip line))) eqn:Sep; [exact IH|].
  cbn [is_empty].
  apply (parse_markdown_table_loop_rows lines _ []).
  apply is_separator_nonempty. exact Sep.
Qed.

Lemma split_pieces_no_sep sep s :
  Forall (fun piece => ~ In sep piece) (split sep s).
Proof.
  induction s as [|c s IH]; cbn [split].
  - constructor; [intros []|constructor].
  - destruct (N.eqb_spec c sep) as [->|Hne].
    + constructor; [intros []|exact IH].
    + pose proof (split_nonempty sep s) as Hn.
      destruct (split sep s) as [|p ps]; [congruence|].
      inversion IH as [|? ? Hp Hps]; subst.
      constructor; [|exact Hps].
      intros [E|H]; [congruence|exact (Hp H)].
Qed.

Lemma removelast_incl {A} (l : list A) x : In x (removelast l) -> In x l.
Proof.
  induction l as [|a l IH]; [intros []|].
  cbn [removelast]. destruct l as [|b l]; [intros []|].
  intros [E|H]; [left; exact E|right; apply IH; exact H].
Qed.

Lemma cells_of_clean line : Forall clean_cell (cells_of line).
Proof.
  unfold cells_of, slice_1_m1. apply Forall_forall. intros cell Hc.
  apply in_map_iff in Hc. destruct Hc as [piece [<- Hp]].
  split; [apply strip_idempotent|].
  intros H. apply strip_incl in H.
  apply removelast_incl in Hp.
  assert (Hin : In piece (split (ch "|") line)).
  { destruct (split (ch "|") line); [destruct Hp|right; exact Hp]. }
  pose proof (split_pieces_no_sep (ch "|") line) as F.
  rewrite Forall_forall in F. exact (F piece Hin H).
Qed.

Lemma parse_markdown_table_loop_clean lines : forall headers rows,
  Forall clean_cell headers -> Forall (Forall clean_cell) rows ->
  Forall clean_cell (fst (parse_markdown_table_loop lines headers rows))
  /\ Forall (Forall clean_cell)
            (snd (parse_markdown_table_loop lines headers rows)).
Proof.
  induction lines as [|line lines IH]; intros headers rows Hh Hr.
  - split; assumption.
  - rewrite parse_markdown_table_loop_cons.
    destruct (negb (startswith (u "|") (strip line))); [apply IH; assumption|].
    destruct (is_separator (cells_of (strip line))); [apply IH; assumption|].
    pose proof (cells_of_clean (strip line)) as Hc.
    destruct (is_empty headers); apply IH; try assumption.
    apply Forall_app. split; [assumption|]. constructor; [assumption|constructor].
Qed.

(** X2. Every header and every cell of every row that
    [parse_markdown_table] returns is stripped (it is its own [strip()])
    and holds no [|]. *)
Theorem parse_markdown_table_cells_clean (lines : list str) :
  Forall clean_cell (fst (parse_markdown_table lines))
  /\ Forall (Forall clean_cell) (snd (parse_markdown_table lines)).
Proof.
  unfold parse_markdown_table.
  apply parse_markdown_table_loop_clean; constructor.
Qed.

(** ** The table of the document *)

Lemma set_item_middle {A} (pre : list A) y rest x :
  set_item (pre ++ y :: rest) (length pre) x = Returned (pre ++ x :: rest).
Proof.
  induction pre as [|a pre IH]; cbn [app length set_item]; [reflexivity|].
  rewrite IH. reflexivity.
Qed.

Lemma set_item_out_of_range {A} (l : list A) i x :
  length l <= i -> set_item l i x = Raised IndexError.
Proof.
  revert i. induction l as [|a l IH]; intros i H; cbn [set_item];
    [reflexivity|].
  destruct i as [|i]; [cbn [length] in H; lia|].
  rewrite IH by (cbn [length] in H; lia). reflexivity.
Qed.

(** Filling writes the data over the first empty cells. *)
Lemma fill_cells_pads row_data : forall pre k,
  length row_data <= k ->
  fill_cells (pre ++ repeat [] k) (length pre) row_data
  = Returned (pre ++ row_data ++ repeat [] (k - length row_data)).
Proof.
  induction row_data as [|cell row_data IH]; intros pre k Hk;
    cbn [fill_cells length app].
  - rewrite Nat.sub_0_r. reflexivity.
  - destruct k as [|k]; [cbn [length] in Hk; lia|].
    cbn [repeat]. rewrite set_item_middle. cbn [bind].
    replace (pre ++ cell :: repeat [] k) with ((pre ++ [cell]) ++ repeat [] k)
      by (rewrite <- app_assoc; reflexivity).
    replace (S (length pre)) with (length (pre ++ [cell]))
      by (rewrite length_app; cbn [length]; lia).
    rewrite IH by (cbn [length] in Hk; lia).
    rewrite <- app_assoc. reflexivity.
Qed.

Lemma fill_cells_too_long row_data : forall row_cells col_idx,
  length row_cells < col_idx + length row_data ->
  is_empty row_data = false ->
  fill_cells row_cells col_idx row_data = Raised IndexError.
Proof.
  induction row_data as [|cell row_data IH]; intros row_cells col_idx H Hn;
    [discriminate|].
  cbn [fill_cells].
  pose proof (set_item_completes row_cells col_idx cell) as S.
  destruct (set_item row_cells col_idx cell) as [[]|row_cells']; [reflexivity|].
  cbn [bind]. destruct S as [S1 S2].
  destruct row_data as [|cell' row_data]; [cbn [length] in H; lia|].
  apply IH; [cbn [length] in *; lia|reflexivity].
Qed.

Lemma fill_cells_row cols row_data :
  length row_data <= cols ->
  fill_cells (repeat [] cols) 0 row_data = Returned (pad_row cols row_data).
Proof.
  intros H. exact (fill_cells_pads row_data [] cols H).
Qed.

Lemma fill_rows_pads cols rows :
  fill_rows cols rows
  = if forallb (fun row_data => length row_data <=? cols) rows
    then Returned (map (pad_row cols) rows)
    else Raised IndexError.
Proof.
  induction rows as [|row_data rows IH]; [reflexivity|].
  cbn [fill_rows forallb map].
  destruct (length row_data <=? cols) eqn:L; cbn [andb].
  - apply Nat.leb_le in L.
    rewrite (fill_cells_row cols row_data L). cbn [bind].
    rewrite IH. destruct (forallb _ rows); reflexivity.
  - apply Nat.leb_gt in L.
    rewrite fill_cells_too_long;
      [reflexivity|rewrite repeat_length; lia|].
    destruct row_data; [cbn [length] in L; lia|reflexivity].
Qed.

Lemma pad_row_length cols row_data :
  length row_data <= cols -> length (pad_row cols row_data) = cols.
Proof.
  intros H. unfold pad_row. rewrite length_app, repeat_length. lia.
Qed.

Lemma add_table_eq doc headers rows :
  add_table doc headers rows
  = if forallb (row_fits headers) rows
    then Returned
           (doc ++ [DocTable (headers :: map (pad_row (length headers)) rows)])
    else Raised IndexError.
Proof.
  unfold add_table.
  rewrite (fill_cells_row (length headers) headers (le_n _)).
  cbn [bind]. unfold pad_row at 1. rewrite Nat.sub_diag. cbn [repeat].
  rewrite app_nil_r, fill_rows_pads.
  change (forallb (fun row_data => length row_data <=? length headers) rows)
    with (forallb (row_fits headers) rows).
  destruct (forallb (row_fits headers) rows); reflexivity.
Qed.

(** X3. [add_table] raises [IndexError] exactly when a data row has more
    cells than the header row; otherwise it appends one grid whose first
    row is the headers and whose other rows are the data rows in order,
    each completed with empty cells, so that the grid has
    [1 + len(rows)] rows of [len(headers)] cells. *)
Theorem add_table_grid (doc : document) (headers : list str)
        (rows : list (list str)) :
  add_table doc headers rows
  = (if forallb (row_fits headers) rows
     then Returned
            (doc ++ [DocTable (headers :: map (pad_row (length headers)) rows)])
     else Raised IndexError)
  /\ (forallb (row_fits headers) rows = true ->
      length (headers :: map (pad_row (length headers)) rows)
      = 1 + length rows
      /\ Forall (fun row_cells => length row_cells = length headers)
                (headers :: map (pad_row (length headers)) rows)).
Proof.
  split.
  - apply add_table_eq.
  - intros F. split; [cbn [length]; rewrite length_map; reflexivity|].
    constructor; [reflexivity|].
    apply Forall_forall. intros row Hr. apply in_map_iff in Hr.
    destruct Hr as [row_data [<- Hin]].
    rewrite forallb_forall in F. specialize (F row_data Hin).
    apply pad_row_length. apply Nat.leb_le. exact F.
Qed.

(** A header row of two cells, a short row and a full row. *)
Lemma add_table_grid_witness :
  Forall (fun row_cells => length row_cells = 2)
         ([u "A"; u "B"]
            :: map (pad_row 2) [[u "1"]; [u "2"; u "3"]]).
Proof.
  apply (proj2 (add_table_grid [] [u "A"; u "B"] [[u "1"]; [u "2"; u "3"]])).
  reflexivity.
Defined.

(** ** The branches of an iteration *)

(** The tests of [parse_step] in their order: blank line, title, the
    three headings, fence, table, bullet, numbered item, metadata with a
    recognised key, and the two ways into a paragraph. *)
Ltac parse_step_branches line els :=
  unfold parse_step;
  destruct (is_empty (strip line)) eqn:Eblank;
  [|destruct (startswith (u "# ") (strip line) && is_empty els) eqn:Etitle;
  [|destruct (startswith (u "### ") (strip line)) eqn:Eh3;
  [|destruct (startswith (u "## ") (strip line)) eqn:Eh2;
  [|destruct (startswith (u "# ") (strip line)) eqn:Eh1;
  [|destruct (startswith (u "```") (strip line)) eqn:Efence;
  [|destruct (startswith (u "|") (strip line)) eqn:Etable;
  [|destruct (startswith (u "- ") (strip line)
              || startswith (u "* ") (strip line)) eqn:Ebullet;
  [|destruct (numbered_match (strip line)) as [[g1 g2]|] eqn:Enum;
  [|destruct (char_in (ch ":") (strip line) && (length els <=? 2)) eqn:Emeta;
  [destruct (partition (ch ":") (strip line)) as [key value] eqn:Epart;
   destruct (str_in (strip key) metadata_keys) eqn:Ekey|]]]]]]]]]].

(** The lines left by an iteration are the end of the lines after the
    cursor. *)
Lemma parse_step_suffix line rest els :
  exists consumed, rest = consumed ++ fst (parse_step line rest els).
Proof.
  assert (Para : forall stripped,
             exists consumed,
               rest = consumed ++ fst (parse_paragraph stripped rest els)).
  { intros stripped. unfold parse_paragraph.
    destruct (span _ rest) as [more after] eqn:Sp. apply span_app in Sp.
    exists more. exact Sp. }
  parse_step_branches line els; try (exists []; reflexivity);
    try apply Para.
  - destruct (span _ rest) as [code_lines after] eqn:Sp. apply span_app in Sp.
    cbn [fst]. destruct after as [|closing after].
    + exists code_lines. exact Sp.
    + exists (code_lines ++ [closing]). rewrite <- app_assoc. exact Sp.
  - change (span is_table_line (line :: rest))
      with (if is_table_line line
            then let '(a, b) := span is_table_line rest in (line :: a, b)
            else ([], line :: rest)).
    unfold is_table_line at 1. rewrite Etable.
    destruct (span is_table_line rest) as [a b] eqn:Sp. apply span_app in Sp.
    destruct (parse_markdown_table (line :: a)) as [headers rows].
    exists a. exact Sp.
Qed.





(** ** The metadata of the document *)

Lemma metadata_runs_app a b :
  metadata_runs (a ++ b) = metadata_runs a ++ metadata_runs b.
Proof. apply flat_map_app. Qed.

Lemma document_metadata_runs_app a b :
  document_metadata_runs (a ++ b)
  = document_metadata_runs a ++ document_metadata_runs b.
Proof. apply flat_map_app. Qed.

Lemma plain_document_metadata_runs added :
  forallb plain_block added = true -> document_metadata_runs added = [].
Proof.
  induction added as [|b added IH]; [reflexivity|].
  cbn [forallb]. intros H. apply andb_true_iff in H. destruct H as [H1 H2].
  change (b :: added) with ([b] ++ added).
  rewrite document_metadata_runs_app, (IH H2), app_nil_r.
  unfold plain_block in H1. apply andb_true_iff in H1. destruct H1 as [H1 _].
  apply negb_true_iff in H1.
  destruct b; try reflexivity.
  unfold document_metadata_runs. cbn [flat_map]. rewrite H1. reflexivity.
Qed.

Lemma metadata_paragraph_runs metadata_items :
  is_empty metadata_items = false ->
  document_metadata_runs [metadata_paragraph metadata_items]
  = metadata_runs metadata_items.
Proof.
  intros H. pose proof (metadata_paragraph_is_block _ H) as B.
  unfold document_metadata_runs. cbn [flat_map].
  unfold metadata_paragraph in *. rewrite B. apply app_nil_r.
Qed.

Section MetadataConservation.

Variable ascii_diagram_to_image : str -> option png.
Variable title : option str.

Lemma render_element_runs doc metadata_items elem doc' metadata_items' :
  render_element ascii_diagram_to_image title doc metadata_items elem
  = Returned (doc', metadata_items') ->
  document_metadata_runs doc' ++ metadata_runs metadata_items'
  = document_metadata_runs doc ++ metadata_runs metadata_items
    ++ metadata_runs (metadata_of [elem]).
Proof.
  destruct (is_h1 elem) eqn:Eh.
  - destruct elem; try discriminate. cbn [render_element].
    destruct metadata_items as [|item items]; cbn [is_empty];
      intros E; inversion E; subst; unfold add_heading;
      rewrite !document_metadata_runs_app.
    + cbn. rewrite !app_nil_r. reflexivity.
    + change [metadata_paragraph (item :: items); DocParagraph []]
        with ([metadata_paragraph (item :: items)] ++ [DocParagraph []]).
      rewrite document_metadata_runs_app,
        (metadata_paragraph_runs (item :: items) eq_refl).
      cbn [document_metadata_runs metadata_of metadata_runs flat_map app].
      rewrite !app_nil_r. reflexivity.
  - intros E.
    destruct (render_element_buffers _ _ _ _ _ _ _ Eh E) as [-> [a [-> P]]].
    rewrite document_metadata_runs_app, (plain_document_metadata_runs a P),
      metadata_runs_app, app_nil_r.
    reflexivity.
Qed.

Lemma render_loop_runs elements : forall doc metadata_items doc' metadata_items',
  render_loop ascii_diagram_to_image title doc metadata_items elements
  = Returned (doc', metadata_items') ->
  document_metadata_runs doc' ++ metadata_runs metadata_items'
  = document_metadata_runs doc ++ metadata_runs metadata_items
    ++ metadata_runs (metadata_of elements).
Proof.
  induction elements as [|elem elements IH];
    intros doc metadata_items doc' metadata_items'.
  - cbn [render_loop]. intros E; inversion E. cbn. rewrite app_nil_r.
    reflexivity.
  - cbn [render_loop].
    destruct (render_element _ _ doc metadata_items elem) as [e|[d m]] eqn:E;
      [discriminate|].
    cbn [bind fst snd]. intros L.
    rewrite (IH _ _ _ _ L), app_assoc, (render_element_runs _ _ _ _ _ E).
    change (elem :: elements) with ([elem] ++ elements).
    unfold metadata_of. rewrite flat_map_app, metadata_runs_app, <- !app_assoc.
    reflexivity.
Qed.

End MetadataConservation.

(** X5. Whatever the order of the elements, a rendering that returns has
    written every buffered pair exactly once: the runs of the metadata
    paragraphs of the document, read in its order, are the bold [key: ]
    and the value with a newline of each metadata element, in the order
    of the elements (also when metadata follows a level-1 heading and is
    flushed a second time, at the end). *)
Theorem metadata_never_lost_or_repeated
        (ascii_diagram_to_image : str -> option png) (title : option str)
        (elements : list element) (doc : document)
        (Hdoc : render ascii_diagram_to_image title elements = Returned doc) :
  document_metadata_runs doc = metadata_runs (metadata_of elements).
Proof.
  unfold render in Hdoc.
  destruct (render_loop _ _ [] [] elements) as [e|[d m]] eqn:L; [discriminate|].
  cbn [bind] in Hdoc. inversion Hdoc; subst doc.
  pose proof (render_loop_runs _ _ _ _ _ _ _ L) as H.
  cbn [document_metadata_runs metadata_runs flat_map app] in H.
  destruct (is_empty m) eqn:Em.
  - destruct m; [|discriminate]. cbn in H. rewrite app_nil_r in H. exact H.
  - rewrite document_metadata_runs_app, (metadata_paragraph_runs _ Em).
    exact H.
Qed.

(** Metadata before and after a level-1 heading: two flushes. *)
Lemma metadata_never_lost_or_repeated_witness :
  document_metadata_runs
    [metadata_paragraph [(u "Author", u "a")]; DocParagraph [];
     DocHeading (u "H") 1 false;
     metadata_paragraph [(u "Status", u "b")]]
  = metadata_runs [(u "Author", u "a"); (u "Status", u "b")].
Proof.
  apply (metadata_never_lost_or_repeated (fun _ => None) None
           [Metadata (u "Author") (u "a"); H1 (u "H");
            Metadata (u "Status") (u "b")]).
  reflexivity.
Defined.

(** ** The title of the document *)

Lemma retitle_app title a b :
  retitle title (a ++ b) = retitle title a ++ retitle title b.
Proof. apply map_app. Qed.

Section TitleOverride.

Variable ascii_diagram_to_image : str -> option png.
Variable title : option str.

Lemma render_element_retitle doc metadata_items elem :
  render_element ascii_diagram_to_image title (retitle title doc)
                 metadata_items elem
  = map_outcome (fun st => (retitle title (fst st), snd st))
      (render_element ascii_diagram_to_image None doc metadata_items elem).
Proof.
  destruct elem; cbn [render_element map_outcome fst snd];
    unfold add_heading, add_numbered_item, add_paragraph, add_bullet_point,
      add_code_block;
    rewrite ?retitle_app; try reflexivity.
  - destruct (is_empty metadata_items); cbn [map_outcome fst snd];
      rewrite ?retitle_app; reflexivity.
  - destruct (ascii_diagram_to_image code_content);
      cbn [map_outcome fst snd]; rewrite retitle_app; reflexivity.
  - rewrite !add_table_eq.
    destruct (forallb (row_fits headers) rows); cbn [bind map_outcome fst snd];
      rewrite ?retitle_app; reflexivity.
Qed.

Lemma render_loop_retitle elements : forall doc metadata_items,
  render_loop ascii_diagram_to_image title (retitle title doc)
              metadata_items elements
  = map_outcome (fun st => (retitle title (fst st), snd st))
      (render_loop ascii_diagram_to_image None doc metadata_items elements).
Proof.
  induction elements as [|elem elements IH]; intros doc metadata_items;
    [reflexivity|].
  cbn [render_loop]. rewrite render_element_retitle.
  destruct (render_element _ None doc metadata_items elem) as [e|[d m]];
    [reflexivity|].
  cbn [map_outcome bind fst snd]. apply IH.
Qed.

End TitleOverride.

Lemma retitle_unchanged title doc :
  (forall text, title_or title text = text) -> retitle title doc = doc.
Proof.
  intros H. unfold retitle. induction doc as [|b doc IH]; [reflexivity|].
  cbn [map]. rewrite IH. f_equal.
  destruct b as [text level c| | | | |]; try reflexivity.
  destruct level; [rewrite H|]; reflexivity.
Qed.

(** X6. The title override changes the text of the level-0 title heading
    and nothing else: the rendering with an override is the rendering
    without one in which the title text is replaced, and it raises when
    the other does; an override that is the empty string changes
    nothing. *)
Theorem title_override_only_retitles
        (ascii_diagram_to_image : str -> option png) (title : option str)
        (elements : list element) :
  render ascii_diagram_to_image title elements
  = map_outcome (retitle title) (render ascii_diagram_to_image None elements)
  /\ render ascii_diagram_to_image (Some []) elements
     = render ascii_diagram_to_image None elements.
Proof.
  assert (R : forall t,
             render ascii_diagram_to_image t elements
             = map_outcome (retitle t)
                           (render ascii_diagram_to_image None elements)).
  { intros t. unfold render.
    pose proof (render_loop_retitle ascii_diagram_to_image t elements [] [])
      as L. cbn [retitle map] in L. rewrite L.
    destruct (render_loop _ None [] [] elements) as [e|[d m]]; [reflexivity|].
    cbn [map_outcome bind fst snd].
    destruct (is_empty m); [reflexivity|].
    rewrite retitle_app. reflexivity. }
  split; [apply R|].
  rewrite (R (Some [])).
  destruct (render ascii_diagram_to_image None elements) as [e|doc];
    [reflexivity|].
  cbn [map_outcome]. rewrite retitle_unchanged; reflexivity.
Qed.

Section TitleBlock.

Variable ascii_diagram_to_image : str -> option png.
Variable title : option str.

(** Only the title element appends a level-0 heading. *)
Lemma render_element_no_title_block doc metadata_items elem doc' metadata_items' :
  is_title elem = false ->
  render_element ascii_diagram_to_image title doc metadata_items elem
  = Returned (doc', metadata_items') ->
  exists added,
    doc' = doc ++ added
    /\ forallb (fun b => negb (is_title_block b)) added = true.
Proof.
  intros Ht.
  destruct elem; try discriminate; cbn [render_element];
    try (intros E; inversion E; subst; eexists; split; reflexivity).
  - destruct metadata_items as [|item items]; cbn [is_empty];
      intros E; inversion E; subst; unfold add_heading.
    + eexists. split; reflexivity.
    + rewrite <- app_assoc. eexists. split; reflexivity.
  - destruct (ascii_diagram_to_image code_content);
      intros E; inversion E; subst; eexists; split; reflexivity.
  - destruct (add_table doc headers rows) as [e|d] eqn:T; [discriminate|].
    cbn [bind]. intros E; inversion E; subst.
    destruct (add_table_appends _ _ _ _ T) as [cells ->].
    exists [DocTable cells; DocParagraph []].
    rewrite <- app_assoc. split; reflexivity.
  - intros E; inversion E; subst. exists []. rewrite app_nil_r.
    split; reflexivity.
Qed.

Lemma render_loop_no_title_block elements : forall doc metadata_items doc' metadata_items',
  forallb (fun e => negb (is_title e)) elements = true ->
  render_loop ascii_diagram_to_image title doc metadata_items elements
  = Returned (doc', metadata_items') ->
  exists added,
    doc' = doc ++ added
    /\ forallb (fun b => negb (is_title_block b)) added = true.
Proof.
  induction elements as [|elem elements IH];
    intros doc metadata_items doc' metadata_items' Ht.
  - cbn [render_loop]. intros E; inversion E; subst.
    exists []. rewrite app_nil_r. split; reflexivity.
  - cbn [forallb] in Ht. apply andb_true_iff in Ht. destruct Ht as [H1 H2].
    apply negb_true_iff in H1. cbn [render_loop].
    destruct (render_element _ _ doc metadata_items elem) as [e|[d m]] eqn:E;
      [discriminate|].
    cbn [bind fst snd]. intros L.
    destruct (render_element_no_title_block _ _ _ _ _ H1 E) as [a1 [-> P1]].
    destruct (IH _ _ _ _ H2 L) as [a2 [-> P2]].
    exists (a1 ++ a2). rewrite app_assoc. split; [reflexivity|].
    rewrite forallb_app, P1, P2. reflexivity.
Qed.

Lemma render_no_title_block elements doc0 metadata_items doc :
  forallb (fun e => negb (is_title e)) elements = true ->
  (st <- render_loop ascii_diagram_to_image title doc0 metadata_items elements ;;
   let '(d, m) := st in
   Returned (if is_empty m then d else d ++ [metadata_paragraph m]))
  = Returned doc ->
  exists added,
    doc = doc0 ++ added
    /\ forallb (fun b => negb (is_title_block b)) added = true.
Proof.
  intros Ht.
  destruct (render_loop _ _ doc0 metadata_items elements) as [e|[d m]] eqn:L;
    [discriminate|].
  cbn [bind]. intros E; inversion E; subst doc.
  destruct (render_loop_no_title_block _ _ _ _ _ Ht L) as [a [-> P]].
  destruct (is_empty m).
  - exists a. split; [reflexivity|exact P].
  - exists (a ++ [metadata_paragraph m]). rewrite app_assoc.
    split; [reflexivity|]. rewrite forallb_app, P. reflexivity.
Qed.

End TitleBlock.

(** X7. In a document that a conversion returns, a level-0 title heading
    can only be the first block: when the first parsed element is the
    title, the document starts with the centred level-0 heading whose
    text is the override, or the parsed text without a non-empty
    override, and no other block is a level-0 heading; otherwise the
    document has no level-0 heading at all. *)
Theorem title_block_only_first
        (ascii_diagram_to_image : str -> option png) (title : option str)
        (text : str) (doc : document)
        (Hdoc : convert_rfc_to_docx ascii_diagram_to_image text title
                = Some (Returned doc)) :
  exists elements,
    parse_rfc_content text = Some elements
    /\ forallb (fun b => negb (is_title_block b)) (tl doc) = true
    /\ match elements with
       | Title content :: _ =>
         hd_error doc = Some (DocHeading (title_or title content) 0 true)
       | _ => forallb (fun b => negb (is_title_block b)) doc = true
       end.
Proof.
  unfold convert_rfc_to_docx in Hdoc.
  destruct (parse_rfc_content text) as [elements|] eqn:P; [|discriminate].
  inversion Hdoc as [Hr]. clear Hdoc. exists elements.
  split; [reflexivity|].
  unfold parse_rfc_content in P.
  pose proof (parse_loop_title_first _ _ _ _ P eq_refl) as Ht.
  unfold render in Hr.
  destruct elements as [|e elements].
  - inversion Hr. split; reflexivity.
  - cbn [tl] in Ht. destruct (is_title e) eqn:Te.
    + destruct e; try discriminate. cbn [render_loop render_element bind fst snd] in Hr.
      destruct (render_no_title_block _ _ _ _ _ _ Ht Hr) as [a [-> Pa]].
      split; [exact Pa|reflexivity].
    + assert (Hall : forallb (fun x => negb (is_title x)) (e :: elements) = true)
        by (cbn [forallb]; rewrite Te, Ht; reflexivity).
      destruct (render_no_title_block _ _ _ _ _ _ Hall Hr) as [a [-> Pa]].
      cbn [app] in *.
      assert (Tl : forallb (fun b => negb (is_title_block b)) (tl a) = true).
      { destruct a as [|b a]; [reflexivity|]. cbn [forallb tl] in *.
        apply andb_true_iff in Pa. tauto. }
      split; [exact Tl|]. destruct e; try exact Pa. discriminate.
Qed.

(** A title line, then a paragraph, converted with an override. *)
Lemma title_block_only_first_witness :
  exists elements,
    parse_rfc_content (join [NL] [u "# Draft"; u "body"]) = Some elements
    /\ forallb (fun b => negb (is_title_block b))
               (tl [DocHeading (u "Final") 0 true;
                    DocParagraph [{| run_text := u "body";
                                     run_bold := false |}]]) = true.
Proof.
  destruct (title_block_only_first (fun _ => None) (Some (u "Final"))
              (join [NL] [u "# Draft"; u "body"])
              [DocHeading (u "Final") 0 true;
               DocParagraph [{| run_text := u "body"; run_bold := false |}]])
    as [elements [P [T _]]]; [vm_compute; reflexivity|].
  exists elements. split; assumption.
Defined.

(** ** The patterns of the diagram detector *)

Lemma lang_star_class p s :
  forallb p s = true -> lang (Star (Class p)) s.
Proof.
  induction s as [|c s IH]; cbn [forallb]; intros H; [auto|].
  apply andb_true_iff in H. destruct H as [Pc Hs].
  change (c :: s) with ([c] ++ s). apply lang_star_cons; auto.
Qed.

Lemma search_pattern_diagram pattern text :
  In pattern box_patterns -> search pattern text = true ->
  is_ascii_diagram text = true.
Proof.
  intros Hin Hs. unfold is_ascii_diagram.
  assert (E : existsb (fun pattern => search pattern text) box_patterns = true).
  { apply existsb_exists. exists pattern. split; assumption. }
  rewrite E. reflexivity.
Qed.

(** X8. A matching pattern decides whatever the density: a text is a
    diagram as soon as it holds three consecutive characters among [+],
    [-] and [|], or one of the box-drawing characters of the second
    pattern, or two bracketed groups with no newline from the first
    opening bracket to the last closing one. *)
Theorem diagram_by_pattern_whatever_the_density :
  (forall pre a b c post,
      char_in a (u "+-|") = true -> char_in b (u "+-|") = true ->
      char_in c (u "+-|") = true ->
      is_ascii_diagram (pre ++ a :: b :: c :: post) = true)
  /\ (forall pre c post,
        char_in c (u "┌┐└┘├┤┬┴┼─│") = true ->
        is_ascii_diagram (pre ++ c :: post) = true)
  /\ (forall pre x y z post,
        ~ In NL x -> ~ In NL y -> ~ In NL z ->
        is_ascii_diagram
          (pre ++ (ch "[" :: x ++ ch "]" :: y ++ ch "[" :: z ++ [ch "]"])
               ++ post) = true).
Proof.
  assert (NoNL : forall s, ~ In NL s -> lang (Star Dot) s).
  { intros s Hn. apply lang_star_class. apply forallb_forall. intros c Hc.
    apply negb_true_iff. apply N.eqb_neq. intros ->. exact (Hn Hc). }
  split; [|split].
  - intros pre a b c post Ha Hb Hc.
    apply (search_pattern_diagram (AtLeast3 (OneOf (u "+-|"))));
      [left; reflexivity|].
    apply search_lang. exists pre, [a; b; c], post. split; [reflexivity|].
    unfold AtLeast3, OneOf.
    change [a; b; c] with ([a] ++ [b] ++ [c] ++ []).
    repeat (apply lang_cat; [apply lang_class; assumption|]). auto.
  - intros pre c post Hc.
    apply (search_pattern_diagram (Plus (OneOf (u "┌┐└┘├┤┬┴┼─│"))));
      [right; left; reflexivity|].
    apply search_lang. exists pre, [c], post. split; [reflexivity|].
    unfold Plus, OneOf. change [c] with ([c] ++ []).
    apply lang_cat; [apply lang_class; exact Hc|auto].
  - intros pre x y z post Hx Hy Hz.
    apply (search_pattern_diagram
             (Seq [Lit (ch "["); Star Dot; Lit (ch "]"); Star Dot;
                   Lit (ch "["); Star Dot; Lit (ch "]")]));
      [right; right; left; reflexivity|].
    apply search_lang.
    exists pre, (ch "[" :: x ++ ch "]" :: y ++ ch "[" :: z ++ [ch "]"]), post.
    split; [reflexivity|].
    unfold Seq, Lit. cbn [fold_right].
    change (ch "[" :: x ++ ch "]" :: y ++ ch "[" :: z ++ [ch "]"])
      with ([ch "["] ++ x ++ [ch "]"] ++ y ++ [ch "["] ++ z ++ [ch "]"] ++ []).
    apply lang_cat; [apply lang_class, N.eqb_refl|].
    apply lang_cat; [apply NoNL, Hx|].
    apply lang_cat; [apply lang_class, N.eqb_refl|].
    apply lang_cat; [apply NoNL, Hy|].
    apply lang_cat; [apply lang_class, N.eqb_refl|].
    apply lang_cat; [apply NoNL, Hz|].
    apply lang_cat; [apply lang_class, N.eqb_refl|auto].
Qed.

(** A rule of three dashes inside a long sentence. *)
Lemma diagram_by_pattern_whatever_the_density_witness :
  is_ascii_diagram
    (u "a long sentence of prose that goes on and on " ++
     ch "-" :: ch "-" :: ch "-" :: u " and then goes on even further") = true.
Proof.
  apply (proj1 diagram_by_pattern_whatever_the_density); reflexivity.
Defined.

Lemma search_first_char (p : char -> bool) rest text :
  search (Cat (Class p) rest) text = true ->
  exists pre c post, text = pre ++ c :: post /\ p c = true.
Proof.
  intros H. apply search_lang in H. destruct H as [pre [m [post [-> Hm]]]].
  apply lang_cat_inv in Hm. destruct Hm as [s [t [-> [Hs _]]]].
  apply lang_class_inv in Hs. destruct Hs as [c [-> Pc]].
  exists pre, c, (t ++ post). rewrite <- app_assoc. split; [reflexivity|exact Pc].
Qed.

(** X9. The fourth and the fifth pattern never decide: a text in which
    one of them matches holds a box-drawing character, so the second
    pattern matches it already, and the detector with the first three
    patterns alone finds a match in the same texts. *)
Theorem last_two_patterns_never_decide (text : str) :
  existsb (fun pattern => search pattern text) box_patterns
  = existsb (fun pattern => search pattern text) (firstn 3 box_patterns).
Proof.
  assert (Box : forall c,
             (ch "─" =? c)%N = true \/ (ch "│" =? c)%N = true ->
             forall pre post, text = pre ++ c :: post ->
             search (Plus (OneOf (u "┌┐└┘├┤┬┴┼─│"))) text = true).
  { intros c Hc pre post ->. apply search_lang.
    exists pre, [c], post. split; [reflexivity|].
    unfold Plus, OneOf. change [c] with ([c] ++ []).
    apply lang_cat; [apply lang_class|auto].
    destruct Hc as [E|E]; apply N.eqb_eq in E; subst c; reflexivity. }
  unfold box_patterns. cbn [firstn existsb].
  destruct (search (AtLeast3 (OneOf (u "+-|"))) text); [reflexivity|].
  destruct (search (Plus (OneOf (u "┌┐└┘├┤┬┴┼─│"))) text) eqn:S2;
    [reflexivity|].
  destruct (search (Seq [Lit (ch "["); Star Dot; Lit (ch "]"); Star Dot;
                         Lit (ch "["); Star Dot; Lit (ch "]")]) text);
    [reflexivity|].
  cbn [orb].
  destruct (search (AtLeast3 (Lit (ch "─"))) text) eqn:S4.
  { unfold AtLeast3, Lit in S4. apply search_first_char in S4.
    destruct S4 as [pre [c [post [E Pc]]]].
    discriminate (Box c (or_introl Pc) pre post E). }
  destruct (search (Seq [Lit (ch "│"); Star Space; Lit (ch "│")]) text) eqn:S5;
    [|reflexivity].
  unfold Seq, Lit in S5. cbn [fold_right] in S5. apply search_first_char in S5.
  destruct S5 as [pre [c [post [E Pc]]]].
  discriminate (Box c (or_intror Pc) pre post E).
Qed.

(** ** Whole inputs *)

Lemma split_join lines :
  is_empty lines = false -> Forall (fun l => ~ In NL l) lines ->
  split NL (join [NL] lines) = lines.
Proof.
  induction lines as [|l lines IH]; [discriminate|].
  intros _ F. inversion F as [|? ? Hl Hls]; subst.
  destruct lines as [|l2 lines].
  - cbn [join]. apply split_no_sep. exact Hl.
  - change (join [NL] (l :: l2 :: lines))
      with (l ++ NL :: join [NL] (l2 :: lines)).
    rewrite split_app, (split_no_sep NL l Hl), IH; [reflexivity|reflexivity|].
    exact Hls.
Qed.

Lemma parse_loop_blanks fuel : forall lines els,
  length lines <= fuel ->
  forallb (fun l => is_empty (strip l)) lines = true ->
  parse_loop fuel lines els = Some els.
Proof.
  induction fuel as [|fuel IH]; intros lines els Hf Hb.
  - destruct lines; [reflexivity|cbn [length] in Hf; lia].
  - destruct lines as [|line rest]; [reflexivity|].
    cbn [forallb] in Hb. apply andb_true_iff in Hb. destruct Hb as [B1 B2].
    rewrite parse_loop_cons, (parse_step_blank _ _ _ B1). cbn [fst snd].
    apply IH; [cbn [length] in Hf; lia|exact B2].
Qed.

(** X10. An input whose lines are all blank (empty or white space only)
    has no element, and its conversion returns the empty document,
    without title and with any rasteriser. *)
Theorem blank_input_gives_empty_document (text : str)
        (Hblank : forallb (fun l => is_empty (strip l)) (split NL text) = true) :
  parse_rfc_content text = Some []
  /\ forall ascii_diagram_to_image title,
      convert_rfc_to_docx ascii_diagram_to_image text title
      = Some (Returned []).
Proof.
  assert (P : parse_rfc_content text = Some []).
  { unfold parse_rfc_content. apply parse_loop_blanks; [lia|exact Hblank]. }
  split; [exact P|].
  intros r title. unfold convert_rfc_to_docx. rewrite P. reflexivity.
Qed.

(** Spaces, an empty line and a tab. *)
Lemma blank_input_gives_empty_document_witness :
  parse_rfc_content [32; 32; 10; 10; 9]%N = Some [].
Proof.
  apply (proj1 (blank_input_gives_empty_document [32; 32; 10; 10; 9]%N
                                                 eq_refl)).
Defined.

(** X11. A fence that is never closed takes every line up to the end of
    the input as its body, and a fence that is the last line of the
    input gives an empty code block. *)
Theorem unterminated_fence_takes_the_rest :
  (forall opening body,
      is_fence opening = true -> ~ In NL opening ->
      forallb (fun l => negb (is_fence l)) (split NL body) = true ->
      parse_rfc_content (opening ++ NL :: body)
      = Some [if is_ascii_diagram body then Diagram body else Code body])
  /\ (forall opening,
        is_fence opening = true -> ~ In NL opening ->
        parse_rfc_content opening = Some [Code []]).
Proof.
  split.
  - intros opening body Fo No Hb. unfold parse_rfc_content.
    rewrite split_app, (split_no_sep NL opening No).
    cbn [app length]. rewrite parse_loop_cons, (parse_step_fence _ _ _ Fo).
    rewrite (span_all_true _ _ Hb).
    cbn [fst snd tl app]. rewrite parse_loop_nil, join_split. reflexivity.
  - intros opening Fo No. unfold parse_rfc_content.
    rewrite (split_no_sep NL opening No).
    cbn [length]. rewrite parse_loop_cons, (parse_step_fence _ _ _ Fo).
    reflexivity.
Qed.

(** An opening fence followed by two lines of prose. *)
Lemma unterminated_fence_takes_the_rest_witness :
  parse_rfc_content (u "```" ++ NL :: join [NL] [u "first"; u "second"])
  = Some [Code (join [NL] [u "first"; u "second"])].
Proof.
  apply (proj1 unterminated_fence_takes_the_rest (u "```")
               (join [NL] [u "first"; u "second"]));
    try reflexivity.
  vm_compute. intros H. decompose [or] H; try discriminate; contradiction.
Defined.

(** ** Paragraphs *)

(** A line that [numbered_match] accepts starts as [^\d+\.\s] requires. *)
Lemma numbered_match_prefix s g1 g2 :
  numbered_match s = Some (g1, g2) -> match_ numbered_prefix s = true.
Proof.
  intros H. apply numbered_match_some in H.
  destruct H as [ws [e [-> [D [[W1 W2] _]]]]].
  destruct ws as [|w ws]; [discriminate|].
  cbn [forallb] in W2. apply andb_true_iff in W2. destruct W2 as [Hw _].
  apply match_lang. exists (g1 ++ [ch "."] ++ [w] ++ []), (ws ++ g2 ++ e).
  split; [rewrite <- !app_assoc; reflexivity|].
  unfold numbered_prefix, Seq. cbn [fold_right].
  apply lang_cat; [apply lang_plus_class; exact D|].
  apply lang_cat; [apply lang_class, N.eqb_refl|].
  apply lang_cat; [apply lang_class; exact Hw|auto].
Qed.

(** What [para_break] rules out. *)
Lemma para_break_tests s :
  para_break s = false ->
  is_empty s = false
  /\ startswith (u "#") s = false
  /\ startswith (u "```") s = false
  /\ startswith (u "|") s = false
  /\ (startswith (u "- ") s || startswith (u "* ") s) = false
  /\ numbered_match s = None.
Proof.
  unfold para_break. intros H.
  repeat (apply orb_false_iff in H; destruct H as [H ?]).
  repeat (split; [assumption|]).
  split; [apply orb_false_iff; split; assumption|].
  destruct (numbered_match s) as [[g1 g2]|] eqn:M; [|reflexivity].
  apply numbered_match_prefix in M. congruence.
Qed.

Lemma startswith_longer a b s :
  startswith a s = false -> startswith (a ++ b) s = false.
Proof.
  intros H. destruct (startswith (a ++ b) s) eqn:E; [|reflexivity].
  apply startswith_prefix in E. congruence.
Qed.

(** A line that could continue a paragraph starts one when the loop
    reaches it, unless it is a metadata line among the first three
    elements. *)
Lemma parse_step_paragraph line rest els :
  continues_paragraph line = true ->
  has_recognized_key line = false ->
  parse_step line rest els = parse_paragraph (strip line) rest els.
Proof.
  unfold continues_paragraph, has_recognized_key. intros Hc Hk.
  apply negb_true_iff in Hc. apply para_break_tests in Hc.
  destruct Hc as [E0 [Eh [Ef [Et [Eb En]]]]].
  assert (E1 : startswith (u "# ") (strip line) = false)
    by exact (startswith_longer (u "#") (u " ") _ Eh).
  assert (E2 : startswith (u "## ") (strip line) = false)
    by exact (startswith_longer (u "#") (u "# ") _ Eh).
  assert (E3 : startswith (u "### ") (strip line) = false)
    by exact (startswith_longer (u "#") (u "## ") _ Eh).
  unfold parse_step. rewrite E0, E1, E2, E3.
  cbn [andb]. rewrite Ef, Et, Eb, En.
  destruct (char_in (ch ":") (strip line) && (length els <=? 2));
    [|reflexivity].
  destruct (partition (ch ":") (strip line)) as [key value].
  cbn [fst] in Hk. rewrite Hk. reflexivity.
Qed.

(** X12. Consecutive lines that do not end a paragraph make one paragraph
    whose text is their stripped forms joined by single spaces; a line
    with metadata syntax does not end it: only the first line must not
    have a recognised key. *)
Theorem plain_lines_make_one_paragraph (first : str) (more : list str)
        (Hnl : Forall (fun l => ~ In NL l) (first :: more))
        (Hlines : forallb continues_paragraph (first :: more) = true)
        (Hkey : has_recognized_key first = false) :
  parse_rfc_content (join [NL] (first :: more))
  = Some [Paragraph (join (u " ") (map strip (first :: more)))].
Proof.
  unfold parse_rfc_content. rewrite (split_join (first :: more) eq_refl Hnl).
  cbn [forallb] in Hlines. apply andb_true_iff in Hlines.
  destruct Hlines as [H1 H2].
  cbn [length]. rewrite parse_loop_cons, (parse_step_paragraph _ _ _ H1 Hkey).
  unfold parse_paragraph.
  change (fun l => negb (para_break (strip l))) with continues_paragraph.
  rewrite (span_all_true _ _ H2).
  cbn [fst snd app map]. apply parse_loop_nil.
Qed.

(** A sentence continued by a line with metadata syntax. *)
Lemma plain_lines_make_one_paragraph_witness :
  parse_rfc_content (join [NL] [u "Summary of the work"; u "Author: someone"])
  = Some [Paragraph (u "Summary of the work Author: someone")].
Proof.
  apply (plain_lines_make_one_paragraph
           (u "Summary of the work") [u "Author: someone"]);
    try reflexivity.
  repeat constructor; vm_compute; intros H; decompose [or] H;
    try discriminate; contradiction.
Defined.

(** ** Numbered items and metadata lines *)

Lemma greedy_plus_stops {A} (p : char -> bool) s (k : str -> str -> option A) :
  match s with [] => True | c :: _ => p c = false end ->
  greedy_plus p s k = None.
Proof.
  destruct s as [|c s]; cbn [greedy_plus]; [reflexivity|].
  intros ->. reflexivity.
Qed.

(** The longest run is tried first: when the continuation accepts it, it
    is the match. *)
Lemma greedy_plus_longest {A} (p : char -> bool) m : forall rest (k : str -> str -> option A) x,
  is_empty m = false -> forallb p m = true ->
  match rest with [] => True | c :: _ => p c = false end ->
  k m rest = Some x ->
  greedy_plus p (m ++ rest) k = Some x.
Proof.
  induction m as [|c m IH]; intros rest k x Hne Hm Hr Hk; [discriminate|].
  cbn [forallb] in Hm. apply andb_true_iff in Hm. destruct Hm as [Pc Hm].
  cbn [app greedy_plus]. rewrite Pc.
  destruct m as [|c' m].
  - cbn [app]. rewrite (greedy_plus_stops p rest _ Hr). exact Hk.
  - rewrite (IH rest (fun m0 rest0 => k (c :: m0) rest0) x eq_refl Hm Hr Hk).
    reflexivity.
Qed.

Lemma not_newline_text t :
  ~ In NL t -> forallb (fun x => negb (x =? NL)%N) t = true.
Proof.
  intros Hn. apply forallb_forall. intros c Hc.
  apply negb_true_iff, N.eqb_neq. intros ->. exact (Hn Hc).
Qed.

(** The groups of a line made of digits, a dot, white space and a text. *)
Lemma numbered_match_exact digits ws t :
  is_empty digits = false -> forallb isdecimal digits = true ->
  is_empty ws = false -> forallb isspace ws = true ->
  item_text t ->
  numbered_match (digits ++ ch "." :: ws ++ t) = Some (digits, t).
Proof.
  intros D1 D2 W1 W2 [T1 T2]. unfold numbered_match.
  apply greedy_plus_longest; [exact D1|exact D2|reflexivity|].
  rewrite N.eqb_refl.
  apply greedy_plus_longest; [exact W1|exact W2| |].
  { destruct t; [exact I|exact T1]. }
  rewrite <- (app_nil_r t) at 1.
  apply greedy_plus_longest;
    [destruct t; [destruct T1|reflexivity]
    |apply not_newline_text; exact T2|exact I|reflexivity].
Qed.

(** A first character decides the tests on prefixes. *)
Lemma startswith_other_head p ps c s :
  (p =? c)%N = false -> startswith (p :: ps) (c :: s) = false.
Proof. intros H. cbn [startswith]. rewrite H. reflexivity. Qed.




Lemma partition_app sep a b :
  ~ In sep a -> partition sep (a ++ sep :: b) = (a, b).
Proof.
  induction a as [|c a IH]; intros Hn; cbn [app partition].
  - rewrite N.eqb_refl. reflexivity.
  - destruct (N.eqb_spec c sep) as [->|_].
    + exfalso. apply Hn. left. reflexivity.
    + rewrite IH; [reflexivity|]. intros H. apply Hn. right. exact H.
Qed.

(** The recognised keys start with a letter that no other test looks
    for, hold no colon and are stripped. *)
Lemma metadata_key_facts key :
  In key metadata_keys ->
  exists c k,
    key = c :: k
    /\ ((ch "#" =? c)%N = false /\ (ch "`" =? c)%N = false
        /\ (ch "|" =? c)%N = false /\ (ch "-" =? c)%N = false
        /\ (ch "*" =? c)%N = false /\ isdecimal c = false)
    /\ ~ In (ch ":") key
    /\ strip key = key
    /\ str_in key metadata_keys = true.
Proof.
  unfold metadata_keys. cbn [In].
  intros [E|[E|[E|[E|[E|[]]]]]]; subst key;
    eexists; eexists; (split; [reflexivity|]);
    (split; [repeat split; reflexivity|]);
    (split; [vm_compute; intros H; decompose [or] H; try discriminate;
             contradiction|]);
    split; vm_compute; reflexivity.
Qed.

(** X14. A line whose stripped form is a recognised key, a colon and a
    value becomes the metadata element with the stripped value (the
    value may hold further colons) while at most two elements have been
    parsed; from the fourth element on, the same line starts a
    paragraph. *)
Theorem metadata_line_only_among_first_three
        (line : str) (rest : list str) (elements : list element)
        (key value : str)
        (Hline : strip line = key ++ ch ":" :: value)
        (Hkey : In key metadata_keys) :
  parse_step line rest elements
  = if length elements <=? 2
    then (rest, elements ++ [Metadata key (strip value)])
    else parse_paragraph (strip line) rest elements.
Proof.
  destruct (metadata_key_facts key Hkey)
    as [c [k [-> [[N1 [N2 [N3 [N4 [N5 N6]]]]] [Hc [Hs Hin]]]]]].
  assert (Hnum : numbered_match (strip line) = None).
  { rewrite Hline. unfold numbered_match. apply greedy_plus_stops. exact N6. }
  assert (Hcolon : char_in (ch ":") (strip line) = true).
  { rewrite Hline. apply char_in_true. apply in_or_app. right. left.
    reflexivity. }
  unfold parse_step. rewrite Hnum, Hcolon.
  rewrite Hline.
  cbn [app is_empty].
  change (u "# ") with (ch "#" :: u " ").
  change (u "### ") with (ch "#" :: u "## ").
  change (u "## ") with (ch "#" :: u "# ").
  change (u "```") with (ch "`" :: u "``").
  change (u "|") with (ch "|" :: []).
  change (u "- ") with (ch "-" :: u " ").
  change (u "* ") with (ch "*" :: u " ").
  rewrite !(startswith_other_head _ _ _ _ N1),
    (startswith_other_head _ _ _ _ N2), (startswith_other_head _ _ _ _ N3),
    (startswith_other_head _ _ _ _ N4), (startswith_other_head _ _ _ _ N5).
  cbn [andb orb].
  destruct (length elements <=? 2); [|reflexivity].
  change (c :: k ++ ch ":" :: value) with ((c :: k) ++ ch ":" :: value).
  rewrite (partition_app _ _ _ Hc), Hs, Hin. reflexivity.
Qed.

(** [Date: 10:30] as the first line and after three elements. *)
Lemma metadata_line_only_among_first_three_witness :
  parse_step (u "Date: 10:30") [] []
  = ([], [Metadata (u "Date") (u "10:30")])
  /\ parse_step (u "Date: 10:30") []
                [Title (u "t"); H1 (u "a"); H2 (u "b")]
     = ([], [Title (u "t"); H1 (u "a"); H2 (u "b");
             Paragraph (u "Date: 10:30")]).
Proof.
  split.
  - apply (metadata_line_only_among_first_three
             (u "Date: 10:30") [] [] (u "Date") (u " 10:30") eq_refl).
    right. right. right. left. reflexivity.
  - apply (metadata_line_only_among_first_three
             (u "Date: 10:30") [] [Title (u "t"); H1 (u "a"); H2 (u "b")]
             (u "Date") (u " 10:30") eq_refl).
    right. right. right. left. reflexivity.
Defined.

(** ** Sub-headings *)

Lemma sub_heading_lines_in_code rest :
  sub_heading_lines true rest
  = sub_heading_lines false
      (tl (snd (span (fun l => negb (is_fence l)) rest))).
Proof.
  induction rest as [|l rest IH]; [reflexivity|].
  cbn [span sub_heading_lines].
  destruct (is_fence l); cbn [negb snd tl]; [reflexivity|].
  destruct (span _ rest) as [a b]. exact IH.
Qed.

Lemma sub_heading_lines_other line rest :
  is_fence line = false -> sub_heading_level line = None ->
  sub_heading_lines false (line :: rest) = sub_heading_lines false rest.
Proof.
  intros F H. cbn [sub_heading_lines]. rewrite F, H. reflexivity.
Qed.

Lemma sub_heading_lines_skip (p : str -> bool) lines :
  (forall l, p l = true -> is_fence l = false /\ sub_heading_level l = None) ->
  sub_heading_lines false (snd (span p lines))
  = sub_heading_lines false lines.
Proof.
  intros Hp. induction lines as [|l lines IH]; [reflexivity|].
  cbn [span]. destruct (p l) eqn:Pl; [|reflexivity].
  destruct (Hp l Pl) as [F H].
  rewrite (sub_heading_lines_other l lines F H).
  destruct (span p lines) as [a b]. exact IH.
Qed.

Lemma sub_heading_level_none line :
  startswith (u "### ") (strip line) = false ->
  startswith (u "## ") (strip line) = false ->
  sub_heading_level line = None.
Proof. unfold sub_heading_level. intros -> ->. reflexivity. Qed.

Lemma sub_headings_app a b :
  sub_headings (a ++ b) = sub_headings a ++ sub_headings b.
Proof. apply flat_map_app. Qed.

(** An iteration appends the sub-heading of the line under the cursor,
    if it is one, and the lines it consumes hold no other. *)
Lemma parse_step_sub_headings line rest els :
  sub_headings (snd (parse_step line rest els))
  ++ sub_heading_lines false (fst (parse_step line rest els))
  = sub_headings els ++ sub_heading_lines false (line :: rest).
Proof.
  assert (Para : forall stripped,
             is_fence line = false -> sub_heading_level line = None ->
             sub_headings (snd (parse_paragraph stripped rest els))
             ++ sub_heading_lines false (fst (parse_paragraph stripped rest els))
             = sub_headings els ++ sub_heading_lines false (line :: rest)).
  { intros stripped F H. unfold parse_paragraph.
    pose proof (sub_heading_lines_skip
                  (fun l => negb (para_break (strip l))) rest) as S.
    destruct (span _ rest) as [more after]. cbn [fst snd] in *.
    rewrite sub_headings_app, (sub_heading_lines_other line rest F H).
    cbn [sub_headings flat_map app]. rewrite app_nil_r. f_equal. apply S.
    intros l Hl. apply negb_true_iff, para_break_tests in Hl.
    destruct Hl as [_ [Eh [Ef _]]]. split; [exact Ef|].
    apply sub_heading_level_none;
      [exact (startswith_longer (u "#") (u "## ") _ Eh)
      |exact (startswith_longer (u "#") (u "# ") _ Eh)]. }
  assert (Plain : forall e,
             sub_headings [e] = [] ->
             is_fence line = false -> sub_heading_level line = None ->
             sub_headings (els ++ [e]) ++ sub_heading_lines false rest
             = sub_headings els ++ sub_heading_lines false (line :: rest)).
  { intros e He F H.
    rewrite sub_headings_app, He, app_nil_r,
      (sub_heading_lines_other line rest F H). reflexivity. }
  parse_step_branches line els; cbn [fst snd].
  - destruct (strip line) eqn:Es; [|discriminate].
    rewrite sub_heading_lines_other; [reflexivity| |];
      unfold is_fence, sub_heading_level; rewrite Es; reflexivity.
  - apply andb_true_iff in Etitle. destruct Etitle as [Eh _].
    apply Plain; [reflexivity| |].
    + exact (startswith_clash _ (u "```") _ Eh eq_refl).
    + apply sub_heading_level_none;
        [exact (startswith_clash _ (u "### ") _ Eh eq_refl)
        |exact (startswith_clash _ (u "## ") _ Eh eq_refl)].
  - assert (F : is_fence line = false)
      by exact (startswith_clash _ (u "```") _ Eh3 eq_refl).
    rewrite sub_headings_app. cbn [sub_heading_lines].
    rewrite F. unfold sub_heading_level. rewrite Eh3.
    rewrite <- app_assoc. reflexivity.
  - assert (F : is_fence line = false)
      by exact (startswith_clash _ (u "```") _ Eh2 eq_refl).
    rewrite sub_headings_app. cbn [sub_heading_lines].
    rewrite F. unfold sub_heading_level. rewrite Eh3, Eh2.
    rewrite <- app_assoc. reflexivity.
  - apply Plain; [reflexivity| |].
    + exact (startswith_clash _ (u "```") _ Eh1 eq_refl).
    + apply sub_heading_level_none; assumption.
  - assert (F : is_fence line = true) by exact Efence.
    destruct (span (fun l => negb (is_fence l)) rest) as [code_lines after]
      eqn:Sp.
    cbn [fst snd sub_heading_lines]. rewrite F. cbn [negb].
    rewrite sub_heading_lines_in_code, Sp, sub_headings_app.
    cbn [snd]. destruct (is_ascii_diagram _); cbn [sub_headings flat_map app];
      rewrite app_nil_r; reflexivity.
  - pose proof (sub_heading_lines_skip is_table_line (line :: rest)) as S.
    destruct (span is_table_line (line :: rest)) as [table_lines after].
    destruct (parse_markdown_table table_lines) as [headers rows].
    cbn [fst snd] in *.
    assert (E : sub_heading_lines false after
                = sub_heading_lines false (line :: rest)).
    { apply S. intros l Hl. unfold is_table_line in Hl. split.
      - exact (startswith_clash _ (u "```") _ Hl eq_refl).
      - apply sub_heading_level_none;
          [exact (startswith_clash _ (u "### ") _ Hl eq_refl)
          |exact (startswith_clash _ (u "## ") _ Hl eq_refl)]. }
    rewrite E. destruct (is_empty headers); [reflexivity|].
    rewrite sub_headings_app. cbn [sub_headings flat_map app].
    rewrite app_nil_r. reflexivity.
  - apply Plain; [reflexivity|exact Efence|].
    apply sub_heading_level_none; assumption.
  - apply Plain; [reflexivity|exact Efence|].
    apply sub_heading_level_none; assumption.
  - apply Plain; [reflexivity|exact Efence|].
    apply sub_heading_level_none; assumption.
  - apply Para; [exact Efence|]. apply sub_heading_level_none; assumption.
  - apply Para; [exact Efence|]. apply sub_heading_level_none; assumption.
Qed.

Lemma parse_loop_sub_headings fuel : forall lines els res,
  parse_loop fuel lines els = Some res ->
  sub_headings res = sub_headings els ++ sub_heading_lines false lines.
Proof.
  induction fuel as [|fuel IH]; intros lines els res.
  - destruct lines; [|discriminate]. cbn [parse_loop]. intros E; inversion E.
    cbn. rewrite app_nil_r. reflexivity.
  - destruct lines as [|line rest].
    + cbn [parse_loop]. intros E; inversion E. cbn. rewrite app_nil_r.
      reflexivity.
    + rewrite parse_loop_cons. intros L. apply IH in L. rewrite L.
      apply parse_step_sub_headings.
Qed.

Lemma sub_heading_blocks_app a b :
  sub_heading_blocks (a ++ b) = sub_heading_blocks a ++ sub_heading_blocks b.
Proof. apply flat_map_app. Qed.

Section SubHeadings.

Variable ascii_diagram_to_image : str -> option png.
Variable title : option str.

Lemma render_element_sub_headings doc metadata_items elem doc' metadata_items' :
  render_element ascii_diagram_to_image title doc metadata_items elem
  = Returned (doc', metadata_items') ->
  sub_heading_blocks doc' = sub_heading_blocks doc ++ sub_headings [elem].
Proof.
  destruct elem; cbn [render_element];
    unfold add_heading, add_numbered_item, add_paragraph, add_bullet_point,
      add_code_block;
    try (intros E; inversion E; subst;
         rewrite ?sub_heading_blocks_app; reflexivity).
  - destruct (is_empty metadata_items); intros E; inversion E; subst;
      rewrite !sub_heading_blocks_app; cbn; rewrite ?app_nil_r; reflexivity.
  - destruct (ascii_diagram_to_image code_content);
      intros E; inversion E; subst; rewrite sub_heading_blocks_app;
      reflexivity.
  - destruct (add_table doc headers rows) as [e|d] eqn:T; [discriminate|].
    cbn [bind]. intros E; inversion E; subst.
    destruct (add_table_appends _ _ _ _ T) as [cells ->].
    rewrite !sub_heading_blocks_app. cbn. rewrite !app_nil_r. reflexivity.
  - intros E; inversion E; subst. cbn. rewrite app_nil_r. reflexivity.
Qed.

Lemma render_loop_sub_headings elements : forall doc metadata_items doc' metadata_items',
  render_loop ascii_diagram_to_image title doc metadata_items elements
  = Returned (doc', metadata_items') ->
  sub_heading_blocks doc' = sub_heading_blocks doc ++ sub_headings elements.
Proof.
  induction elements as [|elem elements IH];
    intros doc metadata_items doc' metadata_items'.
  - cbn [render_loop]. intros E; inversion E. cbn. rewrite app_nil_r.
    reflexivity.
  - cbn [render_loop].
    destruct (render_element _ _ doc metadata_items elem) as [e|[d m]] eqn:E;
      [discriminate|].
    cbn [bind fst snd]. intros L.
    rewrite (IH _ _ _ _ L), (render_element_sub_headings _ _ _ _ _ E),
      <- app_assoc.
    f_equal. change (elem :: elements) with ([elem] ++ elements).
    rewrite sub_headings_app. reflexivity.
Qed.

End SubHeadings.

(** X15. When a conversion returns, the level-2 and level-3 headings of
    the document are, with their levels and in order, the lines whose
    stripped form starts with [## ] or [### ] and that stand outside
    fenced blocks, each with the stripped text after its marker. *)
Theorem sub_headings_follow_their_lines
        (ascii_diagram_to_image : str -> option png) (title : option str)
        (text : str) (doc : document)
        (Hdoc : convert_rfc_to_docx ascii_diagram_to_image text title
                = Some (Returned doc)) :
  sub_heading_blocks doc = sub_heading_lines false (split NL text).
Proof.
  unfold convert_rfc_to_docx in Hdoc.
  destruct (parse_rfc_content text) as [elements|] eqn:P; [|discriminate].
  inversion Hdoc as [Hr]. clear Hdoc.
  unfold parse_rfc_content in P. apply parse_loop_sub_headings in P.
  cbn [sub_headings flat_map app] in P. rewrite <- P.
  unfold render in Hr.
  destruct (render_loop _ _ [] [] elements) as [e|[d m]] eqn:L; [discriminate|].
  cbn [bind] in Hr. inversion Hr; subst doc.
  pose proof (render_loop_sub_headings _ _ _ _ _ _ _ L) as H.
  cbn [sub_heading_blocks flat_map app] in H.
  destruct (is_empty m); [exact H|].
  rewrite sub_heading_blocks_app, H. cbn. apply app_nil_r.
Qed.

(** Two sub-headings and one inside a fenced block. *)
Lemma sub_headings_follow_their_lines_witness :
  sub_heading_blocks
    [DocHeading (u "A") 2 false; DocCodeBlock (u "## c");
     DocHeading (u "B") 3 false]
  = sub_heading_lines false
      (split NL (join [NL] [u "## A"; u "```"; u "## c"; u "```"; u "### B"])).
Proof.
  apply (sub_headings_follow_their_lines (fun _ => None) None).
  vm_compute. reflexivity.
Defined.

(** ** The elements of the parser *)

Lemma rstrip_fixed s :
  rstrip s = s <-> match rev s with [] => True | c :: _ => isspace c = false end.
Proof.
  rewrite <- dropwhile_fixed. unfold rstrip. split; intros H.
  - apply (f_equal (@rev _)) in H. rewrite rev_involutive in H. exact H.
  - rewrite H. apply rev_involutive.
Qed.

Lemma strip_fixed s : strip s = s <-> lstrip s = s /\ rstrip s = s.
Proof.
  unfold strip. split.
  - intros H. split.
    + rewrite <- H at 1.
      rewrite (lstrip_rstrip (lstrip s)) by apply dropwhile_idempotent.
      exact H.
    + rewrite <- H at 1. rewrite rstrip_idempotent. exact H.
  - intros [L R]. rewrite L. exact R.
Qed.

Lemma trimmed_iff t :
  trimmed t <->
  match t with [] => False | c :: _ => isspace c = false end
  /\ match rev t with [] => False | c :: _ => isspace c = false end.
Proof.
  unfold trimmed. rewrite strip_fixed, rstrip_fixed. unfold lstrip.
  rewrite dropwhile_fixed. split.
  - intros [Hne [L R]]. destruct t as [|c t]; [congruence|]. split; [exact L|].
    destruct (rev (c :: t)) eqn:E; [|exact R].
    apply (f_equal (@rev _)) in E. rewrite rev_involutive in E. discriminate.
  - intros [L R]. destruct t as [|c t]; [destruct L|].
    split; [discriminate|]. split; [exact L|].
    destruct (rev (c :: t)); [exact I|exact R].
Qed.

Lemma trimmed_strip s : is_empty (strip s) = false -> trimmed (strip s).
Proof.
  intros H. split; [|apply strip_idempotent].
  destruct (strip s); [discriminate|discriminate].
Qed.

Lemma startswith_skipn p : forall s,
  startswith p s = true -> s = p ++ skipn (length p) s.
Proof.
  induction p as [|x p IH]; intros s; [reflexivity|].
  destruct s as [|c s]; cbn [startswith]; [discriminate|].
  intros H. apply andb_true_iff in H. destruct H as [Hx Hp].
  apply N.eqb_eq in Hx. subst c. cbn [length skipn app]. f_equal.
  apply IH, Hp.
Qed.

(** What follows a marker that ends with white space, on a stripped
    line, has something left when it is stripped. *)
Lemma trimmed_after_marker marker s :
  strip s = s -> startswith marker s = true ->
  match rev marker with [] => False | w :: _ => isspace w = true end ->
  trimmed (strip (skipn (length marker) s)).
Proof.
  intros Hs Hm Hw. apply trimmed_strip.
  destruct (strip (skipn (length marker) s)) eqn:E; [|reflexivity].
  exfalso. apply strip_nil in E.
  apply strip_fixed in Hs. destruct Hs as [_ R]. apply rstrip_fixed in R.
  rewrite (startswith_skipn marker s Hm), rev_app_distr in R.
  destruct (rev (skipn (length marker) s)) as [|c t] eqn:Er.
  - cbn [app] in R. destruct (rev marker); [exact Hw|congruence].
  - cbn [app] in R.
    assert (Hin : In c (skipn (length marker) s)).
    { apply in_rev. rewrite Er. left. reflexivity. }
    rewrite forallb_forall in E. rewrite (E c Hin) in R. discriminate.
Qed.

Lemma join_trimmed sep parts : forall part,
  Forall trimmed (part :: parts) -> trimmed (join sep (part :: parts)).
Proof.
  induction parts as [|q qs IH]; intros part H.
  - inversion H; assumption.
  - inversion H as [|? ? Hp Hq]; subst.
    specialize (IH q Hq).
    change (join sep (part :: q :: qs))
      with (part ++ sep ++ join sep (q :: qs)).
    remember (join sep (q :: qs)) as j eqn:Ej. clear Ej.
    apply trimmed_iff in Hp. apply trimmed_iff in IH. apply trimmed_iff.
    destruct Hp as [Hp _]. destruct IH as [_ Hj]. split.
    + destruct part; [destruct Hp|exact Hp].
    + rewrite !rev_app_distr, <- app_assoc.
      destruct (rev j); [destruct Hj|exact Hj].
Qed.

Lemma dropwhile_split p s :
  exists pre, s = pre ++ dropwhile p s /\ forallb p pre = true.
Proof.
  induction s as [|c s [pre [E F]]]; cbn [dropwhile].
  - exists []. split; reflexivity.
  - destruct (p c) eqn:Pc.
    + exists (c :: pre). cbn [app forallb]. rewrite Pc, F, <- E. auto.
    + exists []. split; reflexivity.
Qed.

Lemma str_in_In s l : str_in s l = true -> In s l.
Proof.
  unfold str_in. intros H. apply existsb_exists in H.
  destruct H as [x [Hx E]]. unfold str_eqb in E.
  destruct (list_eq_dec N.eq_dec s x); [subst; exact Hx|discriminate].
Qed.

(** The second group of a numbered item on a stripped line without
    newline has no white space at either end: the white space after the
    dot is taken whole, and the line ends with the group. *)
Lemma numbered_match_trimmed s g1 g2 :
  strip s = s -> ~ In NL s ->
  numbered_match s = Some (g1, g2) -> trimmed g2.
Proof.
  intros Hs Hnl Hm. pose proof Hm as Hshape.
  apply numbered_match_some in Hshape.
  destruct Hshape as [ws [e [E [[D1 D2] [[W1 W2] [[T1 T2] He]]]]]].
  assert (e = []) as ->.
  { destruct e as [|c [|c' e]]; [reflexivity| |discriminate].
    cbn [at_end] in He. apply N.eqb_eq in He. subst c.
    exfalso. apply Hnl. rewrite E.
    apply in_or_app. right. right. apply in_or_app. right.
    apply in_or_app. right. left. reflexivity. }
  rewrite app_nil_r in E.
  assert (Last : match rev g2 with [] => False | c :: _ => isspace c = false end).
  { apply strip_fixed in Hs. destruct Hs as [_ R]. apply rstrip_fixed in R.
    rewrite E in R.
    change (g1 ++ ch "." :: ws ++ g2) with (g1 ++ (ch "." :: ws) ++ g2) in R.
    rewrite !app_assoc, rev_app_distr in R.
    destruct (rev g2) eqn:Er; [|exact R].
    apply (f_equal (@rev _)) in Er. rewrite rev_involutive in Er.
    subst g2. discriminate. }
  apply trimmed_iff. split; [|exact Last].
  destruct (dropwhile_split isspace g2) as [pre [Eg Hpre]].
  assert (Ht : item_text (dropwhile isspace g2)).
  { split.
    - pose proof (dropwhile_head isspace g2) as Hh.
      destruct (dropwhile isspace g2) eqn:Ed; [|exact Hh].
      apply dropwhile_nil in Ed. rewrite forallb_forall in Ed.
      destruct (rev g2) as [|c t] eqn:Er; [destruct Last|].
      assert (Hin : In c g2) by (apply in_rev; rewrite Er; left; reflexivity).
      rewrite (Ed c Hin) in Last. discriminate.
    - intros Hin. apply dropwhile_incl in Hin. apply Hnl. rewrite E.
      apply in_or_app. right. right. apply in_or_app. right. exact Hin. }
  assert (W : is_empty (ws ++ pre) = false /\ forallb isspace (ws ++ pre) = true).
  { split; [destruct ws; [discriminate|reflexivity]|].
    rewrite forallb_app, W2, Hpre. reflexivity. }
  destruct W as [Wne Wall].
  pose proof (numbered_match_exact g1 (ws ++ pre) (dropwhile isspace g2)
                D1 D2 Wne Wall Ht) as Ex.
  rewrite <- app_assoc, <- Eg, <- E, Hm in Ex.
  destruct Ht as [Hh _].
  assert (Eq : g2 = dropwhile isspace g2) by congruence.
  rewrite Eq. exact Hh.
Qed.

(** An iteration on a line without newline appends well-formed elements
    only. *)
Lemma parse_step_well_formed line rest els :
  ~ In NL line -> Forall well_formed els ->
  Forall well_formed (snd (parse_step line rest els)).
Proof.
  intros Hnl Hels.
  assert (Snoc : forall e, well_formed e -> Forall well_formed (els ++ [e])).
  { intros e He. apply Forall_app. split; [exact Hels|]. constructor;
      [exact He|constructor]. }
  assert (Marker : forall marker,
             startswith marker (strip line) = true ->
             match rev marker with [] => False | w :: _ => isspace w = true end ->
             trimmed (strip (skipn (length marker) (strip line)))).
  { intros marker Hm Hw.
    exact (trimmed_after_marker marker _ (strip_idempotent line) Hm Hw). }
  assert (Para : is_empty (strip line) = false ->
                 Forall well_formed
                        (snd (parse_paragraph (strip line) rest els))).
  { intros Hne. unfold parse_paragraph.
    assert (G : forall lines,
               Forall (fun l => trimmed (strip l))
                      (fst (span (fun l => negb (para_break (strip l))) lines))).
    { induction lines as [|l lines IH]; cbn [span fst]; [constructor|].
      destruct (negb (para_break (strip l))) eqn:Pl; [|constructor].
      destruct (span _ lines) as [a b]. cbn [fst] in *.
      constructor; [|exact IH].
      apply negb_true_iff, para_break_tests in Pl.
      apply trimmed_strip, Pl. }
    specialize (G rest).
    destruct (span _ rest) as [more after]. cbn [fst snd] in *.
    apply Snoc. cbn [well_formed]. apply join_trimmed.
    constructor; [apply trimmed_strip, Hne|].
    apply Forall_forall. intros x Hx. apply in_map_iff in Hx.
    destruct Hx as [l [<- Hl]]. rewrite Forall_forall in G. exact (G l Hl). }
  parse_step_branches line els; cbn [snd]; try exact Hels.
  - apply andb_true_iff in Etitle. destruct Etitle as [Eh _].
    apply Snoc. exact (Marker (u "# ") Eh eq_refl).
  - apply Snoc. exact (Marker (u "### ") Eh3 eq_refl).
  - apply Snoc. exact (Marker (u "## ") Eh2 eq_refl).
  - apply Snoc. exact (Marker (u "# ") Eh1 eq_refl).
  - destruct (span _ rest) as [code_lines after]. cbn [snd]. apply Snoc.
    destruct (is_ascii_diagram (join [NL] code_lines)) eqn:D; exact D.
  - destruct (span is_table_line (line :: rest)) as [table_lines after].
    destruct (parse_markdown_table table_lines) as [headers rows] eqn:T.
    cbn [snd]. destruct (is_empty headers) eqn:Hh; [exact Hels|].
    apply Snoc. cbn [well_formed].
    split; [destruct headers; [discriminate|discriminate]|].
    unfold parse_markdown_table in T.
    pose proof (parse_markdown_table_loop_clean table_lines [] []
                  (Forall_nil _) (Forall_nil _)) as C.
    rewrite T in C. exact C.
  - apply Snoc. cbn [well_formed]. apply orb_true_iff in Ebullet.
    destruct Ebullet as [Eb|Eb].
    + exact (Marker (u "- ") Eb eq_refl).
    + exact (Marker (u "* ") Eb eq_refl).
  - apply Snoc. cbn [well_formed].
    apply (numbered_match_trimmed (strip line) g1 g2);
      [apply strip_idempotent| |exact Enum].
    intros Hin. apply Hnl, strip_incl, Hin.
  - apply Snoc. cbn [well_formed]. split; [apply str_in_In, Ekey|].
    apply strip_idempotent.
  - apply Para. reflexivity.
  - apply Para. reflexivity.
Qed.

Lemma parse_loop_well_formed fuel : forall lines els res,
  Forall (fun l => ~ In NL l) lines -> Forall well_formed els ->
  parse_loop fuel lines els = Some res -> Forall well_formed res.
Proof.
  induction fuel as [|fuel IH]; intros lines els res Hl He.
  - destruct lines; [|discriminate]. cbn [parse_loop].
    intros E; inversion E; subst. exact He.
  - destruct lines as [|line rest].
    + cbn [parse_loop]. intros E; inversion E; subst. exact He.
    + rewrite parse_loop_cons. inversion Hl as [|? ? Hline Hrest]; subst.
      apply IH.
      * destruct (parse_step_suffix line rest els) as [consumed E].
        rewrite E in Hrest. apply Forall_app in Hrest. apply Hrest.
      * apply parse_step_well_formed; assumption.
Qed.

(** X16. Every element of a parse is well formed: the text of a title,
    a heading, a paragraph, a bullet or a numbered item is not empty and
    has no white space at either end; a fenced block is a diagram
    exactly when the detector accepts its content; a table has a header
    cell, and its cells are stripped and hold no [|]; a metadata pair
    has a recognised key and a stripped value. *)
Theorem parsed_elements_well_formed (text : str) (elements : list element)
        (Hparse : parse_rfc_content text = Some elements) :
  Forall well_formed elements.
Proof.
  unfold parse_rfc_content in Hparse.
  apply (parse_loop_well_formed _ _ _ _ (split_pieces_no_sep NL text)
           (Forall_nil _)) in Hparse.
  exact Hparse.
Qed.

(** A numbered item with several spaces after the dot, a heading with
    trailing white space, and a paragraph of two lines. *)
Lemma parsed_elements_well_formed_witness :
  Forall well_formed
         [H2 (u "Goals"); Numbered (u "first") 1; Paragraph (u "a b")].
Proof.
  apply (parsed_elements_well_formed
           (join [NL] [u "##  Goals  "; u "1.   first"; u " a "; u "b  "])).
  vm_compute. reflexivity.
Defined.

(** ** The layout of a diagram *)

(** X17. The layout of a diagram never uses the default width of 40:
    the stripped text always splits into at least one line, so the
    width is the length of the longest line and the canvas is at least
    one line high; every line fits in the width, the lines joined by
    newlines are the stripped text, and a text of white space only has
    one empty line. *)
Theorem diagram_layout_has_a_line (diagram_text : str) :
  1 <= height (diagram_lines diagram_text)
  /\ max_width (diagram_lines diagram_text)
     = list_max (map (@length char) (diagram_lines diagram_text))
  /\ Forall (fun line => length line <= max_width (diagram_lines diagram_text))
            (diagram_lines diagram_text)
  /\ join [NL] (diagram_lines diagram_text) = strip diagram_text
  /\ (forallb isspace diagram_text = true
      -> diagram_lines diagram_text = [[]]).
Proof.
  unfold diagram_lines, height.
  pose proof (split_nonempty NL (strip diagram_text)) as Hne.
  assert (W : max_width (split NL (strip diagram_text))
              = list_max (map (@length char) (split NL (strip diagram_text)))).
  { unfold max_width. destruct (split NL (strip diagram_text));
      [congruence|reflexivity]. }
  split; [|split; [exact W|split; [|split]]].
  - destruct (split NL (strip diagram_text)); [congruence|cbn [length]; lia].
  - rewrite W.
    pose proof (proj1 (list_max_le
                         (map (@length char) (split NL (strip diagram_text)))
                         _) (le_n _)) as F.
    rewrite Forall_forall in F. apply Forall_forall. intros line Hl.
    apply F, in_map, Hl.
  - apply join_split.
  - intros Hs. apply strip_nil in Hs. rewrite Hs. reflexivity.
Qed.
